(** * Unsupervised SimCSE training script ([train.py]): a shallow embedding

    The development follows the script top to bottom: the line dataset
    ([SimCSEDataset]), the encoder wrapper ([SimCSEModel.forward]), the
    batch loader built in [main], the contrastive objective computed in each
    training step, and the training loop of [main] with its evaluation,
    best-score and logging bookkeeping.

    Tensors are nested lists.  Tensor entries are real numbers (the
    arithmetic of the script is floating point; the statements below are
    about the exact-arithmetic reading of the same formulas).  Evaluation
    scores are kept abstract: the loop only ever compares them with [<]. *)

From Stdlib Require Import Ascii String.
From Stdlib Require Import List ZArith Lia Bool Arith PeanoNat.
From Stdlib Require Import Reals Lra.
From Stdlib Require Import Permutation.
Import ListNotations.

Set Implicit Arguments.

(* ------------------------------------------------------------------ *)
(** ** 1. [SimCSEDataset] *)
(* ------------------------------------------------------------------ *)

Section Dataset.

(** A text line is a list of characters; [isspace] is Python's
    [str.isspace] on one character, the set [str.strip()] removes. *)
Variable char : Type.
Variable isspace : char -> bool.

Definition line := list char.

(** [str.lstrip()]: skip the leading whitespace. *)
Fixpoint lstrip (s : line) : line :=
  match s with
  | [] => []
  | c :: r => if isspace c then lstrip r else s
  end.

(** [str.rstrip()]: cut the trailing whitespace. *)
Fixpoint rstrip (s : line) : line :=
  match s with
  | [] => []
  | c :: r =>
      match rstrip r with
      | [] => if isspace c then [] else [c]
      | r' => c :: r'
      end
  end.

(** [line.strip()] *)
Definition strip (s : line) : line := rstrip (lstrip s).

(** Truth value of a Python string: non-empty. *)
Definition truthy (s : line) : bool :=
  match s with [] => false | _ :: _ => true end.

(** One iteration of the [for line in f] loop of [__post_init__]. *)
Definition post_init_step (data : list line) (l : line) : list line :=
  let l := strip l in
  if truthy l then data ++ [l] else data.

(** [__post_init__]: [self.data] after reading the lines of the file. *)
Definition post_init (file_lines : list line) : list line :=
  fold_left post_init_step file_lines [].

(** [__len__] *)
Definition dataset_len (data : list line) : Z := Z.of_nat (length data).

(** [__getitem__]: Python list indexing; a negative index counts from
    the end, an index out of range raises [IndexError] ([None]). *)
Definition getitem (data : list line) (index : Z) : option line :=
  let n := Z.of_nat (length data) in
  let i := if (index <? 0)%Z then (index + n)%Z else index in
  if ((0 <=? i) && (i <? n))%Z%bool then nth_error data (Z.to_nat i) else None.

(** What "trimmed" means, in the words of the specification: [t] is
    [l] without a whitespace prefix and a whitespace suffix, and [t]
    itself neither starts nor ends with whitespace. *)
Definition no_space_at_ends (t : line) : Prop :=
  match t with
  | [] => True
  | c :: _ => isspace c = false /\ isspace (last t c) = false
  end.

Definition trim_of (l t : line) : Prop :=
  exists a b, l = a ++ t ++ b
              /\ forallb isspace a = true
              /\ forallb isspace b = true
              /\ no_space_at_ends t.

(** The dataset in the words of the specification. *)
Definition retained_lines (file_lines : list line) : list line :=
  filter truthy (map strip file_lines).

End Dataset.

(** Python's [str.isspace] on the code points below 256. *)
Definition py_isspace (c : ascii) : bool :=
  let n := nat_of_ascii c in
  ((9 <=? n) && (n <=? 13)) || ((28 <=? n) && (n <=? 32))
  || (n =? 133) || (n =? 160).

Definition text (s : string) : list ascii := list_ascii_of_string s.


(* ------------------------------------------------------------------ *)
(** ** 2. Tensors and [SimCSEModel] *)
(* ------------------------------------------------------------------ *)

Definition vec := list R.
Definition matrix := list vec.
Definition tensor3 := list matrix.

(** Run [f] over a list, failing as soon as one call fails (a Python
    comprehension whose body may raise). *)
Fixpoint mapM {A B : Type} (f : A -> option B) (l : list A) : option (list B) :=
  match l with
  | [] => Some []
  | x :: r =>
      match f x with
      | None => None
      | Some y =>
          match mapM f r with
          | None => None
          | Some ys => Some (y :: ys)
          end
      end
  end.

Definition rsum (l : list R) : R := fold_right Rplus 0%R l.

Definition dot (x y : vec) : R :=
  rsum (map (fun p => (fst p * snd p)%R) (combine x y)).

(** [nn.Linear(in_features, out_features)]: [weight] has one row per
    output unit. *)
Record Linear := {
  in_features : nat;
  out_features : nat;
  weight : matrix;
  bias : vec
}.

Definition Linear_wf (l : Linear) : Prop :=
  length (weight l) = out_features l
  /\ length (bias l) = out_features l
  /\ Forall (fun w => length w = in_features l) (weight l).

(** The affine map [x W^T + b] of a linear layer. *)
Definition affine (l : Linear) (x : vec) : vec :=
  map (fun wb => (dot x (fst wb) + snd wb)%R) (combine (weight l) (bias l)).

(** [self.dense(x)] on one row; a row of the wrong width is a shape
    error. *)
Definition linear_apply (l : Linear) (x : vec) : option vec :=
  if length x =? in_features l then Some (affine l x) else None.

(** [nn.Tanh()], elementwise. *)
Definition activation (v : vec) : vec := map tanh v.

(** [last_hidden_state], a tensor of shape (batch, seq_len, width): one
    list of positions per sequence of the batch.  The sizes of the
    sequence axis and of the hidden axis are kept beside the entries, a
    tensor with an empty batch axis having them all the same. *)
Record hidden_states := {
  seq_len : nat;
  width : nat;
  entries : tensor3
}.

(** The entries fill the shape (batch, [seq_len], [width]). *)
Definition hidden_states_wf (h : hidden_states) : Prop :=
  Forall (fun positions =>
            length positions = seq_len h
            /\ Forall (fun v => length v = width h) positions)
         (entries h).

Section Encoder.

(** What the tokenizer hands to the model ([input_ids], [attention_mask],
    [token_type_ids]). *)
Variable input : Type.

(** [SimCSEModel.__init__]: the pretrained backbone (which returns
    [last_hidden_state], of shape batch x seq_len x hidden), and the MLP
    head [nn.Linear(hidden_size, hidden_size)] with [nn.Tanh()]. *)
Record SimCSEModel := {
  backbone : input -> hidden_states;
  hidden_size : nat;
  dense : Linear
}.

Definition SimCSEModel_wf (m : SimCSEModel) : Prop :=
  in_features (dense m) = hidden_size m
  /\ out_features (dense m) = hidden_size m
  /\ Linear_wf (dense m).

(** [last_hidden_state[:, 0]]: the first position of every sequence;
    an empty sequence axis is an [IndexError], whatever the size of the
    batch axis. *)
Definition cls_pool (last_hidden_state : hidden_states) : option matrix :=
  if seq_len last_hidden_state =? 0 then None
  else mapM (fun positions => nth_error positions 0)
            (entries last_hidden_state).

(** [SimCSEModel.forward].  The pooled tensor has the shape
    (batch, width); [self.dense] refuses a width other than its
    [in_features], also when the batch is empty. *)
Definition forward (m : SimCSEModel) (x : input) (use_mlp : bool)
  : option matrix :=
  match cls_pool (backbone m x) with
  | None => None
  | Some emb =>
      if use_mlp then
        if width (backbone m x) =? in_features (dense m) then
          match mapM (linear_apply (dense m)) emb with
          | None => None
          | Some emb => Some (map activation emb)
          end
        else None
      else Some emb
  end.

End Encoder.

(* ------------------------------------------------------------------ *)
(** ** 3. The batch loader: [DataLoader(..., shuffle=True, drop_last=True)] *)
(* ------------------------------------------------------------------ *)

Section Loader.

Variable A : Type.

(** [[next(sampler_iter) for _ in range(batch_size)]]: the next
    [n] items and the rest of the iterator, or [None] when the iterator
    runs dry first ([StopIteration]). *)
Fixpoint next_n (n : nat) (it : list A) : option (list A * list A) :=
  match n with
  | O => Some ([], it)
  | S n' =>
      match it with
      | [] => None
      | x :: r =>
          match next_n n' r with
          | None => None
          | Some (b, r') => Some (x :: b, r')
          end
      end
  end.

(** [BatchSampler.__iter__] with [drop_last=True]: keep taking full
    batches until the iterator cannot fill one; the partial batch is
    dropped.  [fuel] bounds the number of turns of the [while True] loop. *)
Fixpoint batch_sampler_iter (fuel n : nat) (it : list A) : list (list A) :=
  match fuel with
  | O => []
  | S fuel' =>
      match next_n n it with
      | None => []
      | Some (b, r) => b :: batch_sampler_iter fuel' n r
      end
  end.

(** Every full batch consumes at least one item (the loader refuses a
    batch size below 1), so [length sampler] turns are enough. *)
Definition batch_sampler (batch_size : nat) (sampler : list A) : list (list A) :=
  batch_sampler_iter (length sampler) batch_size sampler.

End Loader.

(** [len(train_dataloader)] with [drop_last=True]:
    [len(sampler) // batch_size]. *)
Definition dataloader_len (num_samples batch_size : Z) : Z :=
  (num_samples / batch_size)%Z.

(* ------------------------------------------------------------------ *)
(** ** 4. The contrastive objective (lines 243-251 of [main]) *)
(* ------------------------------------------------------------------ *)

(** [emb1.unsqueeze(1)]: (B, H) to (B, 1, H). *)
Definition unsqueeze1 (e : matrix) : tensor3 := map (fun r => [r]) e.

(** [emb2.unsqueeze(0)]: (B, H) to (1, B, H). *)
Definition unsqueeze0 (e : matrix) : tensor3 := [e].

(** Broadcasting of two axis lengths: equal, or one of them is 1. *)
Definition bsize (a b : nat) : option nat :=
  if a =? b then Some a
  else if a =? 1 then Some b
  else if b =? 1 then Some a
  else None.

(** Indexing an axis that may have been expanded from length 1. *)
Definition bget {A : Type} (l : list A) (i : nat) : option A :=
  match l with
  | [x] => Some x
  | _ => nth_error l i
  end.

(** Combine two axes under broadcasting. *)
Definition bzip {A B C : Type} (f : A -> B -> option C)
  (xs : list A) (ys : list B) : option (list C) :=
  match bsize (length xs) (length ys) with
  | None => None
  | Some n =>
      mapM (fun i =>
              match bget xs i, bget ys i with
              | Some x, Some y => f x y
              | _, _ => None
              end) (seq 0 n)
  end.

(** [torch.arange(n)] *)
Definition arange (n : Z) : list nat := seq 0 (Z.to_nat n).

(** Softmax probability of class [k] in a row of logits. *)
Definition softmax_at (row : vec) (k : nat) : R :=
  (exp (nth k row 0) / rsum (map exp row))%R.

(** [-log_softmax(row)[k]], the way the kernel computes it:
    [log(sum(exp(row))) - row[k]].  A class index outside the row is an
    error. *)
Definition nll (row : vec) (k : nat) : option R :=
  match nth_error row k with
  | None => None
  | Some x => Some (ln (rsum (map exp row)) - x)%R
  end.

(** [F.cross_entropy(input, target)] with the default [reduction='mean']:
    the batch axes of [input] and [target] must agree. *)
Definition cross_entropy (input : matrix) (target : list nat) : option R :=
  if length input =? length target then
    match mapM (fun rk => nll (fst rk) (snd rk)) (combine input target) with
    | None => None
    | Some losses => Some (rsum losses / INR (length input))%R
    end
  else None.

Section Objective.

(** [F.cosine_similarity] on one pair of vectors (the kernel that
    reduces the last axis, with its [eps] clamp). *)
Variable cosine : vec -> vec -> R.

(** [F.cosine_similarity(x1, x2, dim=-1)] on rank-3 tensors: the two
    leading axes are broadcast, the last axis is reduced. *)
Definition cosine_similarity (x1 x2 : tensor3) : option matrix :=
  bzip (fun r1 r2 => bzip (fun u v => Some (cosine u v)) r1 r2) x1 x2.

(** Lines 243-246: the temperature-scaled similarity matrix. *)
Definition sim_matrix (temperature : R) (emb1 emb2 : matrix) : option matrix :=
  match cosine_similarity (unsqueeze1 emb1) (unsqueeze0 emb2) with
  | None => None
  | Some sim => Some (map (map (fun s => (s / temperature)%R)) sim)
  end.

(** Lines 243-251: the loss of one training step. *)
Definition contrastive_loss (batch_size : Z) (temperature : R)
  (emb1 emb2 : matrix) : option R :=
  match sim_matrix temperature emb1 emb2 with
  | None => None
  | Some sim =>
      let labels := arange batch_size in
      cross_entropy sim labels
  end.

(** The objective in the words of the specification: entry (i, j) of the
    matrix is the cosine similarity of row i of E1 and row j of E2 over
    the temperature, and the loss is the mean over the rows of the
    cross-entropy of row i against label i. *)
Definition spec_entry (temperature : R) (e1 e2 : matrix) (i j : nat) : R :=
  (cosine (nth i e1 []) (nth j e2 []) / temperature)%R.

Definition spec_row (temperature : R) (e1 e2 : matrix) (i : nat) : vec :=
  map (spec_entry temperature e1 e2 i) (seq 0 (length e2)).

Definition spec_cross_entropy (row : vec) (label : nat) : R :=
  (- ln (softmax_at row label))%R.

Definition spec_loss (temperature : R) (e1 e2 : matrix) : R :=
  (rsum (map (fun i => spec_cross_entropy (spec_row temperature e1 e2 i) i)
             (seq 0 (length e1)))
   / INR (length e1))%R.

End Objective.

(* ------------------------------------------------------------------ *)
(** ** 5. [main]: configuration, state, and the training loop *)
(* ------------------------------------------------------------------ *)

(** The options of [Args] that [main] itself computes with.  The
    learning rate and the warm-up length are read by the optimizer and its
    schedule only, the seed by the random generators only. *)
Record Args := {
  batch_size : Z;
  epochs : Z;
  temperature : R;
  max_seq_len : Z;
  eval_logging_interval : Z
}.

(** The exceptions that can end a run. *)
Inductive exn :=
| LoaderValueError     (* DataLoader refuses its arguments *)
| ForwardError         (* the encoder wrapper fails on a batch *)
| LossShapeError       (* F.cross_entropy refuses logits and labels *)
| ZeroDivisionError.   (* (step + 1) % 0 *)

(** [chunked(texts, n)] of [more_itertools], which is
    [iter(partial(take, n, iter(texts)), [])]: consecutive pieces of
    length [n], the last one possibly shorter, up to the first piece
    that comes out empty. *)
Fixpoint chunked_iter {A : Type} (fuel n : nat) (l : list A) : list (list A) :=
  match fuel with
  | O => []
  | S fuel' =>
      match firstn n l with
      | [] => []
      | piece => piece :: chunked_iter fuel' n (skipn n l)
      end
  end.

Definition chunked {A : Type} (l : list A) (n : nat) : list (list A) :=
  chunked_iter (length l) n l.

(** [range(n)] and [enumerate(l)]. *)
Definition range (n : Z) : list Z := map Z.of_nat (seq 0 (Z.to_nat n)).

Definition enumerate {A : Type} (l : list A) : list (Z * A) :=
  combine (map Z.of_nat (seq 0 (length l))) l.

Section Main.

(** Text. *)
Variable char : Type.
Variable isspace : char -> bool.
Local Abbreviation sample := (line char).

(** Evaluation scores (Python floats) and their comparison [<]. *)
Variable score : Type.
Variable score_lt : score -> score -> bool.

(** Everything [optimizer.step()] and [lr_scheduler.step()] mutate: the
    model's [state_dict], the optimizer moments, the schedule position. *)
Variable P : Type.

(** The encoder wrapper as it stands with parameters [p], with
    [model.training = tr], at the [k]-th stochastic forward pass (the
    dropout masks drawn), fed through the tokenizer called with the given
    [max_length]. *)
Variable model_at : P -> bool -> nat -> option Z -> SimCSEModel (list sample).

(** [zero_grad(); loss.backward(); optimizer.step(); lr_scheduler.step()]
    for the loss built, with the given temperature, from forward passes
    [k] and [k+1] on a batch tokenized with the given [max_length]. *)
Variable optimizer_step : R -> Z -> P -> nat -> list sample -> P.

(** [sts.dev(encode=...)], the external scorer ([sts.py], a collaborator
    outside this file): given an embedding function it returns one scalar
    score, higher is better. *)
Variable sts_dev : (list sample -> option matrix) -> score.

(** The order in which the random sampler presents the samples in a given
    epoch. *)
Variable shuffle : Z -> list sample -> list sample.

Variable cosine : vec -> vec -> R.

(** A cell of a log record or of a JSON document. *)
Inductive value :=
| VInt (z : Z)
| VFloat (x : R)
| VScore (s : score)
| VNone.

(** A Python [dict] with string keys, in insertion order. *)
Definition dict := list (string * value).

(** The calls [main] makes on the model, the scorer, the optimizer and
    the file system, in program order. *)
Inductive event :=
| ModelEval                                   (* model.eval() *)
| ModelTrain                                  (* model.train() *)
| StsDev (epoch step : Z) (result : score)    (* sts.dev(encode=encode) *)
| OptimizerStep (epoch step : Z)              (* optimizer.step() *)
| TorchSave (epoch step : Z) (state_dict : P). (* torch.save(..., "model.pt") *)

(** The variables of [main] that change during the loop.  [trace] and
    [bests] are history variables: the calls made so far, and the value of
    ([best_stsb], [best_step]) after each evaluation. *)
Record state := {
  params : P;
  training : bool;
  draws : nat;
  best_stsb : score;
  best_step : Z;
  logs : list dict;
  trace : list event;
  bests : list (score * Z)
}.

Definition emit (ev : event) (st : state) : state :=
  {| params := params st; training := training st; draws := draws st;
     best_stsb := best_stsb st; best_step := best_step st;
     logs := logs st; trace := trace st ++ [ev]; bests := bests st |}.

(** [model.eval()] / [model.train()] *)
Definition set_mode (tr : bool) (st : state) : state :=
  emit (if tr then ModelTrain else ModelEval)
    {| params := params st; training := tr; draws := draws st;
       best_stsb := best_stsb st; best_step := best_step st;
       logs := logs st; trace := trace st; bests := bests st |}.

Definition set_best (s : score) (k : Z) (st : state) : state :=
  {| params := params st; training := training st; draws := draws st;
     best_stsb := s; best_step := k;
     logs := logs st; trace := trace st; bests := bests st |}.

Definition append_log (row : dict) (st : state) : state :=
  {| params := params st; training := training st; draws := draws st;
     best_stsb := best_stsb st; best_step := best_step st;
     logs := logs st ++ [row]; trace := trace st; bests := bests st |}.

Definition record_best (st : state) : state :=
  {| params := params st; training := training st; draws := draws st;
     best_stsb := best_stsb st; best_step := best_step st;
     logs := logs st; trace := trace st;
     bests := bests st ++ [(best_stsb st, best_step st)] |}.

(** The closure [encode] (lines 194-207), as it behaves when the model
    holds parameters [p] in mode [tr]. *)
Definition encode (cfg : Args) (p : P) (tr : bool) (k : nat)
  (texts : list sample) : option matrix :=
  match mapM (fun piece => forward (model_at p tr k None) piece false)
             (chunked texts (Z.to_nat (batch_size cfg * 8))) with
  | None => None
  | Some [] => None                    (* torch.cat of an empty list *)
  | Some embs => Some (concat embs)
  end.

(** Lines 209-220: the evaluation before any update. *)
Definition initial_state (cfg : Args) (p0 : P) : state :=
  let s0 := sts_dev (encode cfg p0 false 0) in
  {| params := p0; training := false; draws := 0;
     best_stsb := s0; best_step := 0%Z;
     logs := [[("epoch"%string, VInt 0); ("step"%string, VInt 0);
               ("loss"%string, VNone); ("STSB"%string, VScore s0)]];
     trace := [ModelEval; StsDev 0 0 s0];
     bests := [(s0, 0%Z)] |}.

(** Lines 239-257: two forward passes, the loss, one update. *)
Definition train_step (cfg : Args) (epoch step : Z) (batch : list sample)
  (st : state) : exn + (R * state) :=
  let ml := Some (max_seq_len cfg) in
  match forward (model_at (params st) (training st) (draws st) ml) batch true with
  | None => inl ForwardError
  | Some emb1 =>
      match forward (model_at (params st) (training st) (S (draws st)) ml) batch true with
      | None => inl ForwardError
      | Some emb2 =>
          match contrastive_loss cosine (batch_size cfg) (temperature cfg) emb1 emb2 with
          | None => inl LossShapeError
          | Some loss =>
              inr (loss,
                   emit (OptimizerStep epoch (step + 1))
                     {| params := optimizer_step (temperature cfg) (max_seq_len cfg)
                                                 (params st) (draws st) batch;
                        training := training st;
                        draws := S (S (draws st));
                        best_stsb := best_stsb st; best_step := best_step st;
                        logs := logs st; trace := trace st; bests := bests st |})
          end
      end
  end.

(** Line 260: is an evaluation due after this step?  [None] is the
    [ZeroDivisionError] of [%]. *)
Definition eval_due (cfg : Args) (len_dataloader step : Z) : option bool :=
  if (eval_logging_interval cfg =? 0)%Z then None
  else Some (((step + 1) mod eval_logging_interval cfg =? 0)%Z
             || (step + 1 =? len_dataloader)%Z).

(** Lines 265-269: the best-score policy. *)
Definition update_best (epoch step : Z) (stsb_score : score) (st : state) : state :=
  if score_lt (best_stsb st) stsb_score
  then emit (TorchSave epoch (step + 1) (params st))
         (set_best stsb_score (step + 1)%Z st)
  else st.

(** Lines 261-285: one evaluation inside the loop. *)
Definition evaluate (cfg : Args) (epoch step : Z) (loss : R) (st : state) : state :=
  let st := set_mode false st in
  let stsb_score := sts_dev (encode cfg (params st) (training st) (draws st)) in
  let st := emit (StsDev epoch (step + 1) stsb_score) st in
  let st := record_best (update_best epoch step stsb_score st) in
  let st := append_log [("epoch"%string, VInt epoch);
                        ("step"%string, VInt (step + 1));
                        ("loss"%string, VFloat loss);
                        ("stsb"%string, VScore stsb_score)] st in
  set_mode true st.

(** A [for] loop whose body may raise. *)
Fixpoint for_each {X : Type} (body : X -> state -> state * option exn)
  (xs : list X) (st : state) : state * option exn :=
  match xs with
  | [] => (st, None)
  | x :: r =>
      match body x st with
      | (st', None) => for_each body r st'
      | (st', Some e) => (st', Some e)
      end
  end.

(** The body of the inner loop (lines 230-285). *)
Definition step_body (cfg : Args) (len_dataloader epoch : Z)
  (sb : Z * list sample) (st : state) : state * option exn :=
  match train_step cfg epoch (fst sb) (snd sb) st with
  | inl e => (st, Some e)
  | inr (loss, st) =>
      match eval_due cfg len_dataloader (fst sb) with
      | None => (st, Some ZeroDivisionError)
      | Some false => (st, None)
      | Some true => (evaluate cfg epoch (fst sb) loss st, None)
      end
  end.

(** The batches of one epoch: what iterating [train_dataloader] yields
    (before tokenization, which is part of [model_at]). *)
Definition epoch_batches (cfg : Args) (data : list sample) (epoch : Z)
  : list (list sample) :=
  batch_sampler (Z.to_nat (batch_size cfg)) (shuffle epoch data).

(** The body of the outer loop (lines 223-285). *)
Definition epoch_body (cfg : Args) (data : list sample) (epoch : Z)
  (st : state) : state * option exn :=
  let st := set_mode true st in
  let len_dataloader := dataloader_len (Z.of_nat (length data)) (batch_size cfg) in
  for_each (step_body cfg len_dataloader epoch)
           (enumerate (epoch_batches cfg data epoch)) st.

(** How a run ends: the loader refuses to be built, or the loops ran
    (to the end, or up to an exception). *)
Inductive outcome :=
| Refused (e : exn)
| Ran (st : state) (raised : option exn).

(** [main], up to the end of the loops (lines 140-285).  The batch
    sampler refuses a batch size below 1, the random sampler an empty
    dataset. *)
Definition main (cfg : Args) (file_lines : list sample) (p0 : P) : outcome :=
  let train_dataset := post_init isspace file_lines in
  if ((batch_size cfg <=? 0)%Z || (length train_dataset =? 0))%bool
  then Refused LoaderValueError
  else
    let (st, raised) :=
      for_each (epoch_body cfg train_dataset) (range (epochs cfg))
               (initial_state cfg p0) in
    Ran st raised.

(** *** The files written (lines 269, 288-295) *)

(** The column labels of [pd.DataFrame(rows)]: the keys of the records
    in order of first appearance. *)
Definition add_key (cols : list string) (k : string) : list string :=
  if existsb (String.eqb k) cols then cols else cols ++ [k].

Definition dataframe_columns (rows : list dict) : list string :=
  fold_left (fun cols row => fold_left add_key (map fst row) cols) rows [].

Fixpoint dict_get (d : dict) (k : string) : option value :=
  match d with
  | [] => None
  | (k', v) :: r => if String.eqb k k' then Some v else dict_get r k
  end.

(** One cell of the table: empty ([None]) when the record has no such
    key or holds [None] there. *)
Definition cell (row : dict) (col : string) : option value :=
  match dict_get row col with
  | None | Some VNone => None
  | Some v => Some v
  end.

(** [logs.csv]: the header and the rows. *)
Definition logs_csv (o : outcome) : option (list string * list (list (option value))) :=
  match o with
  | Ran st None =>
      let cols := dataframe_columns (logs st) in
      Some (cols, map (fun row => map (cell row) cols) (logs st))
  | _ => None
  end.

(** [best-metrics.json] *)
Definition best_metrics_json (o : outcome) : option dict :=
  match o with
  | Ran st None =>
      Some [("step"%string, VInt (best_step st));
            ("stsb"%string, VScore (best_stsb st))]
  | _ => None
  end.

(** The writes of [model.pt] in a trace, oldest first. *)
Fixpoint saves (tr : list event) : list (Z * Z * P) :=
  match tr with
  | [] => []
  | TorchSave e s p :: r => (e, s, p) :: saves r
  | _ :: r => saves r
  end.

(** The evaluations in a trace, oldest first. *)
Fixpoint evaluations (tr : list event) : list (Z * Z * score) :=
  match tr with
  | [] => []
  | StsDev e s r :: rest => (e, s, r) :: evaluations rest
  | _ :: rest => evaluations rest
  end.

(** The last write of [model.pt] during the run, if any. *)
Definition last_save (tr : list event) : option (Z * Z * P) :=
  match rev (saves tr) with
  | [] => None
  | x :: _ => Some x
  end.

Definition trace_of (o : outcome) : list event :=
  match o with
  | Refused _ => []
  | Ran st _ => trace st
  end.

Definition logs_of (o : outcome) : list dict :=
  match o with
  | Refused _ => []
  | Ran st _ => logs st
  end.

Definition best_step_of (o : outcome) : Z :=
  match o with
  | Refused _ => 0%Z
  | Ran st _ => best_step st
  end.

(** The loops ran to their end without an exception. *)
Definition finished (o : outcome) : bool :=
  match o with
  | Ran _ None => true
  | _ => false
  end.

(** The exception that ended the run, if one did. *)
Definition raised_of (o : outcome) : option exn :=
  match o with
  | Refused e => Some e
  | Ran _ raised => raised
  end.

(** *** The mode discipline around evaluations

    A scan of the trace: [MTrain] and [MEval] follow [model.training];
    [MScored] is the interval after the scorer returned and before the
    model is put back in training mode. *)
Inductive phase := MTrain | MEval | MScored.

Definition phase_step (ph : phase) (ev : event) : option phase :=
  match ev, ph with
  | ModelTrain, _ => Some MTrain
  | ModelEval, MTrain => Some MEval
  | ModelEval, MEval => Some MEval
  | ModelEval, MScored => None
  | StsDev _ _ _, MEval => Some MScored
  | StsDev _ _ _, _ => None
  | TorchSave _ _ _, MScored => Some MScored
  | TorchSave _ _ _, _ => None
  | OptimizerStep _ _, MTrain => Some MTrain
  | OptimizerStep _ _, _ => None
  end.

Fixpoint scan (ph : phase) (tr : list event) : option phase :=
  match tr with
  | [] => Some ph
  | ev :: r =>
      match phase_step ph ev with
      | None => None
      | Some ph' => scan ph' r
      end
  end.

(** Every evaluation runs in evaluation mode and is followed by the
    switch back, every update runs in training mode. *)
Definition mode_discipline (tr : list event) : Prop :=
  scan MTrain tr = Some MTrain.

End Main.

Arguments VInt {score} z.
Arguments VFloat {score} x.
Arguments VScore {score} s.
Arguments VNone {score}.
Arguments ModelEval {score P}.
Arguments ModelTrain {score P}.
Arguments StsDev {score P} epoch step result.
Arguments OptimizerStep {score P} epoch step.
Arguments TorchSave {score P} epoch step state_dict.
Arguments Refused {score P} e.

(** The best-score policy in the words of the specification, replayed
    over the evaluations that follow the one at step 0: a strictly better
    score replaces the best score and its step and overwrites the
    checkpoint; anything else changes nothing.  The accumulator is the
    current best, the best after each evaluation so far, and the
    checkpoint writes so far. *)
Section Policy.

Variable score : Type.
Variable score_lt : score -> score -> bool.

Definition policy_state : Type :=
  ((score * Z) * list (score * Z) * list (Z * Z))%type.

Definition policy_step (acc : policy_state) (ev : Z * Z * score) : policy_state :=
  let '(cur, hist, writes) := acc in
  let '(e, s, sc) := ev in
  if score_lt (fst cur) sc
  then ((sc, s), hist ++ [(sc, s)], writes ++ [(e, s)])
  else (cur, hist ++ [cur], writes).

Definition policy_run (s0 : score) (later : list (Z * Z * score)) : policy_state :=
  fold_left policy_step later ((s0, 0%Z), [(s0, 0%Z)], []).

(** A sequence of scores that never goes down: each one is below or
    equal to the next. *)
Fixpoint nondecreasing (l : list score) : Prop :=
  match l with
  | a :: (b :: _) as r => (score_lt a b = true \/ a = b) /\ nondecreasing r
  | _ => True
  end.

End Policy.

(** The encoder behaves as a well-shaped module: the head matches the
    hidden size, and the backbone returns for every sample one non-empty
    sequence of vectors of that width (so the sequence axis is not empty
    and the hidden axis has the hidden size). *)
Definition encoder_ok {X : Type} (m : SimCSEModel (list X)) : Prop :=
  SimCSEModel_wf m
  /\ forall x : list X,
       length (entries (backbone m x)) = length x
       /\ 1 <= seq_len (backbone m x)
       /\ width (backbone m x) = hidden_size m
       /\ Forall (fun positions =>
                    exists v rest, positions = v :: rest
                                   /\ length v = hidden_size m)
                 (entries (backbone m x)).

(** *** Reading a run *)

(** The epoch and step of an evaluation or of a checkpoint write. *)
Definition point {X : Type} (x : Z * Z * X) : Z * Z := (fst (fst x), snd (fst x)).

(** The evaluation points in the words of the specification: step 0,
    then in every epoch the steps (counted from 1) that are multiples of
    the interval, and the last step of the epoch. *)
Definition due (cfg : Args) (len_dataloader s : Z) : bool :=
  ((s mod eval_logging_interval cfg =? 0) || (s =? len_dataloader))%Z.

Definition epoch_points (cfg : Args) (len_dataloader e : Z) : list (Z * Z) :=
  map (fun s => (e, s))
      (filter (due cfg len_dataloader)
              (map (fun i => Z.of_nat (S i)) (seq 0 (Z.to_nat len_dataloader)))).

Definition spec_eval_points (cfg : Args) (len_dataloader : Z) : list (Z * Z) :=
  (0, 0)%Z :: flat_map (epoch_points cfg len_dataloader) (range (epochs cfg)).

Section Reading.

Variable score : Type.
Variable score_lt : score -> score -> bool.
Variable P : Type.

(** The evaluation points of a trace, in order. *)
Definition points_of (tr : list (event score P)) : list (Z * Z) :=
  map point (evaluations tr).

(** The loop follows the policy: the best score, its step, the history
    of both and the checkpoint writes are those of the policy replayed
    over the scores the scorer returned. *)
Definition follows_policy (s0 : score) (st : state score P) : Prop :=
  exists later,
    evaluations (trace st) = (0%Z, 0%Z, s0) :: later
    /\ policy_run score_lt s0 later
       = ((best_stsb st, best_step st), bests st, map point (saves (trace st))).

(** The recorded best step is the step of the last checkpoint write, and
    the best score the score evaluated there; without any write they are
    still those of step 0. *)
Definition best_is_last_save (s0 : score) (st : state score P) : Prop :=
  match last_save (trace st) with
  | None => best_step st = 0%Z /\ best_stsb st = s0
  | Some (e, s, p) =>
      best_step st = s /\ In (e, s, best_stsb st) (evaluations (trace st))
  end.

(** The last clause of the checkpoint claim read literally: the step in
    [best-metrics.json] is the step of a write of [model.pt], the last
    one. *)
Definition best_metrics_names_last_save (o : outcome score P) : Prop :=
  match o with
  | Ran st None => exists e p, last_save (trace st) = Some (e, best_step st, p)
  | _ => True
  end.

End Reading.

(* ------------------------------------------------------------------ *)
(** ** 6. A small concrete world, to run [main] on *)
(* ------------------------------------------------------------------ *)

(** The parameters are the number of updates made so far.  The encoder
    after [p] updates has the hidden size listed at position [p] of a
    table (1 beyond its end); its hidden states and its head are all
    zeros.  The scorer returns the width of the embedding of one probe
    sentence.  The sampler presents the samples in reverse order. *)
Definition toy_model (w : nat) : SimCSEModel (list (line ascii)) :=
  {| backbone := fun x => {| seq_len := 1; width := w;
                             entries := map (fun _ => [repeat 0%R w]) x |};
     hidden_size := w;
     dense := {| in_features := w; out_features := w;
                 weight := repeat (repeat 0%R w) w;
                 bias := repeat 0%R w |} |}.

Definition toy_model_at (table : list nat) (p : nat) (tr : bool) (k : nat)
  (max_length : option Z) : SimCSEModel (list (line ascii)) :=
  toy_model (nth p table 1%nat).

Definition toy_optimizer_step (temperature : R) (max_length : Z)
  (p : nat) (k : nat) (b : list (line ascii)) : nat :=
  S p.

Definition toy_sts_dev (enc : list (line ascii) -> option matrix) : Z :=
  match enc [text "probe"] with
  | Some (v :: _) => Z.of_nat (length v)
  | _ => 0%Z
  end.

Definition toy_shuffle (e : Z) (d : list (line ascii)) : list (line ascii) :=
  rev d.

Definition toy_cosine (u v : vec) : R := 0%R.

Abbreviation toy_main table cfg file_lines :=
  (main py_isspace Z.ltb (toy_model_at table) toy_optimizer_step toy_sts_dev
        toy_shuffle toy_cosine cfg file_lines 0%nat).

Definition toy_args (batch_size epochs eval_logging_interval : Z) : Args :=
  {| batch_size := batch_size; epochs := epochs; temperature := (1 / 20)%R;
     max_seq_len := 32; eval_logging_interval := eval_logging_interval |}.

(** A file of five lines, one of them blank. *)
Definition toy_file : list (line ascii) :=
  [text " a cat
"; text "   
"; text "a dog
"; text "the end  
"; text "fin"].

(** Four runs on that file: two epochs of two steps evaluated at every
    step, with a score that improves twice and with one that never does;
    one epoch with the default interval; and one epoch with batch size 1. *)
Abbreviation run_improving :=
  (toy_main [1; 2; 1; 3]%nat (toy_args 2 2 1) toy_file).

Abbreviation run_flat :=
  (toy_main [1; 1; 1]%nat (toy_args 2 2 1) toy_file).

Abbreviation run_default :=
  (toy_main (@nil nat) (toy_args 2 1 250) toy_file).

Abbreviation run_batch_one :=
  (toy_main (@nil nat) (toy_args 1 1 250) toy_file).

(** Two more: one epoch with an evaluation interval of 0, and no epoch
    at all. *)
Abbreviation run_zero_interval :=
  (toy_main (@nil nat) (toy_args 2 1 0) toy_file).

Abbreviation run_no_epoch :=
  (toy_main (@nil nat) (toy_args 2 0 250) toy_file).

(** An encoder with a head that is not trivial: hidden size 2, a dense
    layer of weight [[1, 2], [3, 4]] and bias [5, 6], and hidden states
    of [len] positions per sample, position [k] holding the number of
    characters of the sample plus [k], and 1. *)
Definition head_model (len : nat) : SimCSEModel (list (line ascii)) :=
  {| backbone := fun x =>
       {| seq_len := len;
          width := 2;
          entries := map (fun s => map (fun k => [(INR (length s) + INR k)%R; 1%R])
                                       (seq 0 len)) x |};
     hidden_size := 2;
     dense := {| in_features := 2; out_features := 2;
                 weight := [[1; 2]; [3; 4]]%R;
                 bias := [5; 6]%R |} |}.

(* ------------------------------------------------------------------ *)
(** ** 7. More readings of a run, and [config.json] *)
(* ------------------------------------------------------------------ *)

Section MoreReading.

Variable score : Type.
Variable P : Type.

(** The updates in a trace (epoch and 1-based step), oldest first. *)
Fixpoint updates (tr : list (event score P)) : list (Z * Z) :=
  match tr with
  | [] => []
  | OptimizerStep e s :: r => (e, s) :: updates r
  | _ :: r => updates r
  end.

(** What a log record holds: its epoch, its step and its score, the
    score looked up under either spelling of its key. *)
Definition row_score (row : dict score) : option (value score) :=
  match dict_get row "STSB" with
  | Some v => Some v
  | None => dict_get row "stsb"
  end.

Definition row_entry (row : dict score) : option (Z * Z * score) :=
  match dict_get row "epoch", dict_get row "step", row_score row with
  | Some (VInt e), Some (VInt s), Some (VScore sc) => Some (e, s, sc)
  | _, _, _ => None
  end.

(** The best score of an outcome ([d] when the loader refused). *)
Definition best_stsb_of (o : outcome score P) (d : score) : score :=
  match o with
  | Refused _ => d
  | Ran st _ => best_stsb st
  end.

End MoreReading.

(** One update (lines 239-257) as a function of the position in the
    dropout stream and the parameters: two draws are consumed. *)
Definition update_with {char P : Type}
  (optimizer_step : R -> Z -> P -> nat -> list (line char) -> P)
  (cfg : Args) (kp : nat * P) (b : list (line char)) : nat * P :=
  (S (S (fst kp)),
   optimizer_step (temperature cfg) (max_seq_len cfg) (snd kp) (fst kp) b).

(** The values the attributes of [Args] hold: [int], [float], [str] and
    [Path] (a path is represented by its string). *)
Inductive pyvalue :=
| PInt (z : Z)
| PFloat (x : R)
| PStr (s : string)
| PPath (s : string).

(** [v if type(v) in [int, float] else str(v)] *)
Definition jsonable (v : pyvalue) : pyvalue :=
  match v with
  | PInt z => PInt z
  | PFloat x => PFloat x
  | PStr s => PStr s
  | PPath s => PStr s
  end.

(** Lines 297-299: the dictionary written to [config.json], from
    [vars(args).items()]. *)
Definition config_json (vars_args : list (string * pyvalue))
  : list (string * pyvalue) :=
  map (fun kv => (fst kv, jsonable (snd kv))) vars_args.

(** What [json.dump] can write among these values. *)
Definition json_serializable (v : pyvalue) : bool :=
  match v with
  | PPath _ => false
  | _ => true
  end.
(* ------------------------------------------------------------------ *)
(** ** The small world is well behaved *)
(* ------------------------------------------------------------------ *)

Lemma toy_encoder_ok (table : list nat) (p : nat) (tr : bool) (k : nat)
  (ml : option Z) :
  encoder_ok (toy_model_at table p tr k ml).
Proof.
  unfold toy_model_at. generalize (nth p table 1%nat) as w. intros w.
  split.
  - unfold SimCSEModel_wf, Linear_wf. simpl.
    rewrite !repeat_length. repeat split.
    apply Forall_forall. intros r Hr. apply repeat_spec in Hr. subst r.
    apply repeat_length.
  - intros x. simpl. split; [apply length_map|]. split; [lia|].
    split; [reflexivity|].
    apply Forall_forall. intros s Hs. apply in_map_iff in Hs.
    destruct Hs as [_ [<- _]]. exists (repeat 0%R w), [].
    split; [reflexivity | apply repeat_length].
Qed.

Lemma toy_shuffle_perm (e : Z) (d : list (line ascii)) :
  Permutation (toy_shuffle e d) d.
Proof. unfold toy_shuffle. apply Permutation_sym, Permutation_rev. Qed.

Lemma toy_backbone_rows (table : list nat) (p : nat) (tr : bool) (k : nat)
  (ml : option Z) (x : list (line ascii)) :
  length (entries (backbone (toy_model_at table p tr k ml) x)) = length x.
Proof. apply length_map. Qed.

Section DatasetFacts.

Variable char : Type.
Variable isspace : char -> bool.

Lemma lstrip_split (s : line char) :
  exists a, s = a ++ lstrip isspace s /\ forallb isspace a = true.
Proof.
  induction s as [|c r IH]; simpl.
  - exists []. auto.
  - destruct (isspace c) eqn:E.
    + destruct IH as [a [H1 H2]]. exists (c :: a). simpl.
      rewrite E, H2. split; [congruence | reflexivity].
    + exists []. auto.
Qed.

Lemma lstrip_head (s : line char) :
  match lstrip isspace s with
  | [] => True
  | c :: _ => isspace c = false
  end.
Proof.
  induction s as [|c r IH]; simpl; auto.
  destruct (isspace c) eqn:E; auto.
Qed.

Lemma rstrip_split (s : line char) :
  exists b, s = rstrip isspace s ++ b /\ forallb isspace b = true.
Proof.
  induction s as [|c r IH]; simpl.
  - exists []. auto.
  - destruct IH as [b [H1 H2]].
    destruct (rstrip isspace r) as [|d r'] eqn:E.
    + simpl in H1. subst r.
      destruct (isspace c) eqn:Ec.
      * exists (c :: b). simpl. rewrite Ec, H2. auto.
      * exists b. auto.
    + exists b. split; [simpl; f_equal; exact H1 | assumption].
Qed.

Lemma rstrip_last (s : line char) (d : char) :
  rstrip isspace s <> [] -> isspace (last (rstrip isspace s) d) = false.
Proof.
  induction s as [|c r IH]; simpl; [congruence|].
  destruct (rstrip isspace r) as [|e r'] eqn:E.
  - destruct (isspace c) eqn:Ec; [congruence|]. intros _. simpl. exact Ec.
  - intros _.
    change (last (c :: e :: r') d) with (last (e :: r') d).
    apply IH. congruence.
Qed.

Lemma rstrip_head (s : line char) :
  match rstrip isspace s with
  | [] => True
  | c :: _ => exists r, s = c :: r
  end.
Proof.
  destruct s as [|c r]; simpl; auto.
  destruct (rstrip isspace r); [destruct (isspace c)|]; simpl; eauto.
Qed.

Lemma strip_trim_of (l : line char) : trim_of isspace l (strip isspace l).
Proof.
  unfold trim_of, strip.
  destruct (lstrip_split l) as [a [Ha Hsa]].
  destruct (rstrip_split (lstrip isspace l)) as [b [Hb Hsb]].
  exists a, b. repeat split; auto.
  - rewrite <- Hb. exact Ha.
  - unfold no_space_at_ends.
    pose proof (rstrip_head (lstrip isspace l)) as Hh.
    pose proof (lstrip_head l) as Hl.
    destruct (rstrip isspace (lstrip isspace l)) as [|c t] eqn:E; auto.
    destruct Hh as [r Hr]. rewrite Hr in Hl. split; [exact Hl|].
    rewrite <- E. apply rstrip_last. congruence.
Qed.

Lemma post_init_fold (ls : list (line char)) (acc : list (line char)) :
  fold_left (post_init_step isspace) ls acc
  = acc ++ retained_lines isspace ls.
Proof.
  revert acc. induction ls as [|l ls IH]; intros acc; simpl.
  - unfold retained_lines. simpl. now rewrite app_nil_r.
  - rewrite IH. unfold post_init_step, retained_lines. simpl.
    destruct (truthy (strip isspace l)); [|reflexivity].
    now rewrite <- app_assoc.
Qed.

Lemma getitem_in_range (data : list (line char)) (i : nat) :
  (i < length data)%nat ->
  getitem data (Z.of_nat i) = nth_error data i.
Proof.
  intros Hi. unfold getitem.
  destruct (Z.ltb_spec (Z.of_nat i) 0); [lia|].
  destruct (Z.leb_spec 0 (Z.of_nat i)); [|lia].
  destruct (Z.ltb_spec (Z.of_nat i) (Z.of_nat (length data))); [|lia].
  simpl. now rewrite Nat2Z.id.
Qed.

End DatasetFacts.

(** C7. The dataset built by [__post_init__] is the list of the stripped
    lines of the file that are non-empty, in file order; stripping a line
    removes exactly a whitespace prefix and a whitespace suffix; [__len__]
    is the number of retained lines and [__getitem__] returns the i-th
    retained line as it is. *)
Theorem dataset_holds_trimmed_nonempty_lines :
  forall (char : Type) (isspace : char -> bool) (file_lines : list (line char)),
    let data := post_init isspace file_lines in
    data = retained_lines isspace file_lines
    /\ (forall l, trim_of isspace l (strip isspace l))
    /\ Forall (fun s => s <> []) data
    /\ dataset_len data = Z.of_nat (length (retained_lines isspace file_lines))
    /\ (forall i, (i < length data)%nat ->
                  getitem data (Z.of_nat i)
                  = nth_error (retained_lines isspace file_lines) i
                  /\ getitem data (Z.of_nat i) <> None).
Proof.
  intros char isspace file_lines data.
  assert (E : data = retained_lines isspace file_lines).
  { unfold data, post_init. now rewrite post_init_fold. }
  repeat split.
  - exact E.
  - apply strip_trim_of.
  - rewrite E. unfold retained_lines. apply Forall_forall.
    intros s Hs. apply filter_In in Hs. destruct Hs as [_ Hs].
    destruct s; [discriminate | congruence].
  - unfold dataset_len. now rewrite E.
  - rewrite getitem_in_range by assumption. now rewrite E.
  - rewrite getitem_in_range by assumption.
    now apply nth_error_Some.
Qed.

(** The file of the small world: the blank line is dropped, the others
    are kept stripped and in order. *)
Lemma dataset_holds_trimmed_nonempty_lines_witness :
  post_init py_isspace toy_file = retained_lines py_isspace toy_file
  /\ post_init py_isspace toy_file
     = [text "a cat"; text "a dog"; text "the end"; text "fin"]
  /\ getitem (post_init py_isspace toy_file) 2 = Some (text "the end")
  /\ getitem (post_init py_isspace toy_file) (-1) = Some (text "fin")
  /\ getitem (post_init py_isspace toy_file) 4 = None.
Proof.
  split.
  - exact (proj1 (dataset_holds_trimmed_nonempty_lines py_isspace toy_file)).
  - repeat split; reflexivity.
Defined.

(* ------------------------------------------------------------------ *)
(** ** The batch loader *)
(* ------------------------------------------------------------------ *)

Section LoaderFacts.

Variable A : Type.

Lemma next_n_full (n : nat) (it : list A) :
  (n <= length it)%nat -> next_n n it = Some (firstn n it, skipn n it).
Proof.
  revert it. induction n as [|n IH]; intros it H; simpl.
  - reflexivity.
  - destruct it as [|x r]; simpl in H; [lia|].
    rewrite IH by lia. reflexivity.
Qed.

Lemma next_n_short (n : nat) (it : list A) :
  (length it < n)%nat -> next_n n it = None.
Proof.
  revert it. induction n as [|n IH]; intros it H; simpl.
  - lia.
  - destruct it as [|x r]; [reflexivity|].
    simpl in H. rewrite IH by lia. reflexivity.
Qed.

Lemma firstn_plus (a b : nat) (l : list A) :
  firstn (a + b) l = firstn a l ++ firstn b (skipn a l).
Proof.
  revert l. induction a as [|a IH]; intros l; simpl.
  - reflexivity.
  - destruct l as [|x r]; simpl.
    + now rewrite firstn_nil.
    + now rewrite IH.
Qed.

Lemma div_step (n len : nat) :
  (0 < n)%nat -> (n <= len)%nat -> (len / n = S ((len - n) / n))%nat.
Proof.
  intros Hn Hle.
  replace len with ((len - n) + 1 * n)%nat at 1 by lia.
  rewrite Nat.div_add by lia. lia.
Qed.

(** The loop of the batch sampler, whatever fuel at least the length of
    the iterator it is given: [length it / n] batches, each of [n] items,
    which together are the first [n * (length it / n)] items. *)
Lemma batch_sampler_iter_spec (fuel n : nat) (it : list A) :
  (0 < n)%nat -> (length it <= fuel)%nat ->
  let bs := batch_sampler_iter fuel n it in
  length bs = (length it / n)%nat
  /\ Forall (fun b => length b = n) bs
  /\ concat bs = firstn (n * (length it / n)) it.
Proof.
  intros Hn. revert it. induction fuel as [|fuel IH]; intros it Hf; simpl.
  - destruct it; simpl in Hf; [|lia]. simpl.
    rewrite Nat.Div0.div_0_l. now rewrite firstn_nil.
  - destruct (Nat.lt_ge_cases (length it) n) as [Hs|Hl].
    + rewrite next_n_short by assumption. simpl.
      rewrite Nat.div_small by assumption.
      rewrite Nat.mul_0_r. simpl. auto.
    + rewrite next_n_full by assumption.
      assert (Hlen : length (skipn n it) = (length it - n)%nat)
        by apply length_skipn.
      destruct (IH (skipn n it)) as [H1 [H2 H3]]; [lia|].
      rewrite Hlen in H1, H3.
      rewrite (div_step Hn Hl). simpl. repeat split.
      * now rewrite H1.
      * constructor; [|exact H2].
        rewrite length_firstn. lia.
      * rewrite H3.
        replace (n * S ((length it - n) / n))%nat
          with (n + n * ((length it - n) / n))%nat by lia.
        now rewrite firstn_plus.
Qed.

(** More fuel than the length of the iterator changes nothing: the
    loop has stopped by then. *)
Lemma batch_sampler_iter_fuel (f1 f2 n : nat) (it : list A) :
  (0 < n)%nat -> (length it <= f1)%nat -> (length it <= f2)%nat ->
  batch_sampler_iter f1 n it = batch_sampler_iter f2 n it.
Proof.
  intros Hn. revert f2 it.
  induction f1 as [|f1 IH]; intros f2 it H1 H2.
  - destruct it; simpl in H1; [|lia].
    destruct f2; simpl; [reflexivity|].
    now rewrite next_n_short by (simpl; lia).
  - destruct f2 as [|f2].
    + destruct it; simpl in H2; [|lia].
      simpl. now rewrite next_n_short by (simpl; lia).
    + simpl.
      destruct (Nat.lt_ge_cases (length it) n) as [Hs|Hl].
      * now rewrite next_n_short by assumption.
      * rewrite next_n_full by assumption. f_equal.
        apply IH; rewrite length_skipn; lia.
Qed.

Lemma batch_sampler_iter_stable (fuel n : nat) (it : list A) :
  (0 < n)%nat -> (length it <= fuel)%nat ->
  batch_sampler_iter fuel n it = batch_sampler n it.
Proof.
  intros Hn Hf. unfold batch_sampler.
  now apply batch_sampler_iter_fuel.
Qed.

Lemma batches_all_full (n : nat) (it : list A) :
  Forall (fun b => length b = n) (batch_sampler n it).
Proof.
  unfold batch_sampler. generalize (length it) as fuel.
  intros fuel. revert it. induction fuel as [|fuel IH]; intros it; simpl.
  - constructor.
  - destruct (next_n n it) as [[b r]|] eqn:E; [|constructor].
    constructor; [|apply IH].
    clear IH. revert it b r E. induction n as [|n IHn]; intros it b r E; simpl in E.
    + now injection E as <- _.
    + destruct it as [|x t]; [discriminate|].
      destruct (next_n n t) as [[b' r']|] eqn:E'; [|discriminate].
      injection E as <- _. simpl. f_equal. eapply IHn. exact E'.
Qed.

End LoaderFacts.

(** C4. In every epoch the loader yields [floor(N / B)] batches of exactly
    [B] samples each; together they are the first [B * floor(N / B)]
    samples of the epoch's shuffled order, so the [N mod B] samples after
    them are in no batch; and the count agrees with [len(train_dataloader)]. *)
Theorem loader_yields_full_batches_only :
  forall (char : Type) (shuffle : Z -> list (line char) -> list (line char))
         (cfg : Args) (data : list (line char)) (epoch : Z),
    (0 < batch_size cfg)%Z ->
    Permutation (shuffle epoch data) data ->
    let N := length data in
    let B := Z.to_nat (batch_size cfg) in
    let batches := epoch_batches shuffle cfg data epoch in
    length batches = (N / B)%nat
    /\ Z.of_nat (length batches) = dataloader_len (Z.of_nat N) (batch_size cfg)
    /\ Forall (fun b => length b = B) batches
    /\ concat batches = firstn (B * (N / B)) (shuffle epoch data)
    /\ (length (concat batches) + N mod B = N)%nat.
Proof.
  intros char shuffle cfg data epoch HB Hperm N B batches.
  assert (HBn : (0 < B)%nat) by (unfold B; lia).
  assert (HN : length (shuffle epoch data) = N)
    by (unfold N; now apply Permutation_length).
  destruct (@batch_sampler_iter_spec _ (length (shuffle epoch data)) B
              (shuffle epoch data) HBn (Nat.le_refl _)) as [H1 [H2 H3]].
  fold (batch_sampler B (shuffle epoch data)) in H1, H2, H3.
  rewrite HN in H1, H3.
  assert (L : length batches = (N / B)%nat) by exact H1.
  repeat split.
  - exact L.
  - rewrite L. unfold dataloader_len.
    rewrite Nat2Z.inj_div. unfold B. now rewrite Z2Nat.id by lia.
  - exact H2.
  - exact H3.
  - unfold batches, epoch_batches. fold B. rewrite H3.
    rewrite length_firstn, HN.
    pose proof (Nat.div_mod_eq N B).
    pose proof (Nat.Div0.mul_div_le N B). lia.
Qed.

(** Five samples in batches of two: two batches, one sample left out. *)
Lemma loader_yields_full_batches_only_witness :
  let batches := epoch_batches toy_shuffle (toy_args 2 1 250) toy_file 0 in
  length batches = 2%nat
  /\ Forall (fun b => length b = 2%nat) batches
  /\ (length (concat batches) + 1 = length toy_file)%nat.
Proof.
  destruct (@loader_yields_full_batches_only ascii toy_shuffle
              (toy_args 2 1 250) toy_file 0%Z)
    as [H1 [_ [H3 [_ H5]]]].
  - reflexivity.
  - apply toy_shuffle_perm.
  - intros batches. split; [exact H1 | split; [exact H3 | exact H5]].
Defined.

(* ------------------------------------------------------------------ *)
(** ** The encoder wrapper *)
(* ------------------------------------------------------------------ *)

Lemma mapM_cons {A B : Type} (f : A -> option B) (x : A) (r : list A) :
  mapM f (x :: r)
  = match f x with
    | None => None
    | Some y => match mapM f r with None => None | Some ys => Some (y :: ys) end
    end.
Proof. reflexivity. Qed.

Lemma mapM_ext_map {A B : Type} (f : A -> option B) (g : A -> B) (l : list A) :
  (forall x, In x l -> f x = Some (g x)) -> mapM f l = Some (map g l).
Proof.
  induction l as [|x r IH]; intros H; simpl.
  - reflexivity.
  - rewrite (H x) by (now left).
    rewrite IH by (intros y Hy; apply H; now right). reflexivity.
Qed.

Lemma mapM_length {A B : Type} (f : A -> option B) (l : list A) (out : list B) :
  mapM f l = Some out -> length out = length l.
Proof.
  revert out. induction l as [|x r IH]; intros out; simpl.
  - now intros [= <-].
  - destruct (f x); [|discriminate].
    destruct (mapM f r) as [ys|]; [|discriminate].
    intros [= <-]. simpl. f_equal. now apply IH.
Qed.

Lemma mapM_Forall2 {A B : Type} (f : A -> option B) (l : list A) (out : list B) :
  mapM f l = Some out <-> Forall2 (fun x y => f x = Some y) l out.
Proof.
  revert out. induction l as [|x r IH]; intros out; simpl.
  - split.
    + intros [= <-]. constructor.
    + intros H. inversion H. reflexivity.
  - split.
    + destruct (f x) as [y|] eqn:E; [|discriminate].
      destruct (mapM f r) as [ys|] eqn:Er; [|discriminate].
      intros [= <-]. constructor; [exact E|]. now apply IH.
    + intros H. inversion H as [|? y ? ys Hx Hr]; subst.
      rewrite Hx. apply IH in Hr. now rewrite Hr.
Qed.

Lemma tanh_bounds (x : R) : (-1 <= tanh x <= 1)%R.
Proof.
  unfold tanh, sinh, cosh.
  pose proof (exp_pos x) as Ha. pose proof (exp_pos (- x)) as Hb.
  set (a := exp x) in *. set (b := exp (- x)) in *.
  assert (Hc : (0 < (a + b) / 2)%R) by lra.
  split.
  - apply Rmult_le_reg_r with ((a + b) / 2)%R; [exact Hc|].
    unfold Rdiv at 2. rewrite Rmult_assoc, Rinv_l by lra. lra.
  - apply Rmult_le_reg_r with ((a + b) / 2)%R; [exact Hc|].
    unfold Rdiv at 1. rewrite Rmult_assoc, Rinv_l by lra. lra.
Qed.

Lemma activation_bounds (v : vec) :
  Forall (fun y => (-1 <= y <= 1)%R) (activation v).
Proof.
  unfold activation. apply Forall_forall. intros y Hy.
  apply in_map_iff in Hy. destruct Hy as [x [<- _]]. apply tanh_bounds.
Qed.

Lemma affine_length (l : Linear) (x : vec) :
  Linear_wf l -> length (affine l x) = out_features l.
Proof.
  intros [Hw [Hb _]]. unfold affine.
  rewrite length_map, length_combine, Hw, Hb. apply Nat.min_id.
Qed.

Section EncoderFacts.

Variable input : Type.

Lemma cls_pool_length (h : hidden_states) (pooled : matrix) :
  cls_pool h = Some pooled -> length pooled = length (entries h).
Proof.
  unfold cls_pool. destruct (seq_len h =? 0); [discriminate|].
  apply mapM_length.
Qed.

(** A tensor without any position has nothing to pool, whatever its
    batch axis. *)
Lemma cls_pool_empty_axis (h : hidden_states) :
  seq_len h = 0 -> cls_pool h = None.
Proof. intros H. unfold cls_pool. now rewrite H. Qed.

(** When the sequence axis is not empty and every sequence starts with
    a vector, pooling returns these first vectors. *)
Lemma cls_pool_first (hidden : nat) (h : hidden_states) :
  1 <= seq_len h ->
  Forall (fun positions => exists v rest, positions = v :: rest
                                          /\ length v = hidden)
         (entries h) ->
  cls_pool h = Some (map (fun positions => nth 0 positions []) (entries h))
  /\ Forall (fun v => length v = hidden)
            (map (fun positions => nth 0 positions []) (entries h)).
Proof.
  intros Hpos Hfirst. rewrite Forall_forall in Hfirst. split.
  - unfold cls_pool. destruct (Nat.eqb_spec (seq_len h) 0) as [E|_]; [lia|].
    apply mapM_ext_map. intros positions Hin.
    destruct (Hfirst positions Hin) as [v [rest [-> _]]]. reflexivity.
  - apply Forall_forall. intros v Hv. apply in_map_iff in Hv.
    destruct Hv as [positions [<- Hin]].
    destruct (Hfirst positions Hin) as [v [rest [-> Hw]]]. exact Hw.
Qed.

(** In a tensor that fills its shape and has at least one position,
    pooling returns the first position of every sequence. *)
Lemma cls_pool_defined (h : hidden_states) :
  hidden_states_wf h -> 1 <= seq_len h ->
  cls_pool h = Some (map (fun positions => nth 0 positions []) (entries h))
  /\ Forall (fun v => length v = width h)
            (map (fun positions => nth 0 positions []) (entries h)).
Proof.
  intros Hwf Hpos. apply (@cls_pool_first (width h) h Hpos).
  eapply Forall_impl; [|exact Hwf]. intros positions [Hlen Hw].
  destruct positions as [|v rest]; [simpl in Hlen; lia|].
  exists v, rest. split; [reflexivity | now inversion Hw].
Qed.

(** Whatever the wrapper returns has one row per sequence the backbone
    returned. *)
Lemma forward_rows (m : SimCSEModel input) (x : input) (use_mlp : bool)
  (emb : matrix) :
  forward m x use_mlp = Some emb ->
  length emb = length (entries (backbone m x)).
Proof.
  unfold forward.
  destruct (cls_pool (backbone m x)) as [pooled|] eqn:E; [|discriminate].
  apply cls_pool_length in E.
  destruct use_mlp.
  - destruct (width (backbone m x) =? in_features (dense m)); [|discriminate].
    destruct (mapM (linear_apply (dense m)) pooled) as [proj|] eqn:Ep;
      [|discriminate].
    apply mapM_length in Ep. intros [= <-].
    rewrite length_map. congruence.
  - intros [= <-]. exact E.
Qed.

Lemma forward_projected_bounds (m : SimCSEModel input) (x : input) (emb : matrix) :
  forward m x true = Some emb ->
  Forall (Forall (fun y => (-1 <= y <= 1)%R)) emb.
Proof.
  unfold forward.
  destruct (cls_pool (backbone m x)) as [pooled|]; [|discriminate].
  destruct (width (backbone m x) =? in_features (dense m)); [|discriminate].
  destruct (mapM (linear_apply (dense m)) pooled) as [proj|]; [|discriminate].
  intros [= <-]. apply Forall_forall. intros r Hr.
  apply in_map_iff in Hr. destruct Hr as [v [<- _]].
  apply activation_bounds.
Qed.

End EncoderFacts.

(** The dot product written out as a sum over the positions. *)
Lemma dot_as_sum (v w : vec) :
  length w = length v ->
  dot v w
  = fold_right Rplus 0%R
      (map (fun k => (nth k v 0 * nth k w 0)%R) (seq 0 (length v))).
Proof.
  revert w. induction v as [|a v IH]; intros [|b w] Hlen;
    try discriminate; [reflexivity|].
  injection Hlen as Hlen. unfold dot in *. cbn [combine map rsum fold_right].
  cbn [length seq map fold_right nth]. f_equal.
  rewrite <- seq_shift, map_map. cbn [nth]. now apply IH.
Qed.

Lemma nth_map_in {A B : Type} (f : A -> B) (l : list A) (i : nat) (d : A) (e : B) :
  i < length l -> nth i (map f l) e = f (nth i l d).
Proof.
  intros Hi. rewrite (nth_indep _ e (f d)) by (now rewrite length_map).
  apply map_nth.
Qed.

(** One component of the head's output, from the weight matrix and the
    bias vector. *)
Lemma head_entry (l : Linear) (v : vec) (j : nat) :
  Linear_wf l -> length v = in_features l -> j < out_features l ->
  nth j (activation (affine l v)) 0%R
  = tanh (fold_right Rplus 0%R
            (map (fun k => (nth k v 0 * nth k (nth j (weight l) []) 0)%R)
                 (seq 0 (in_features l)))
          + nth j (bias l) 0)%R.
Proof.
  intros [Hw [Hb Hrows]] Hv Hj. unfold activation, affine.
  rewrite (@nth_map_in _ _ tanh _ j 0%R)
    by (rewrite length_map, length_combine, Hw, Hb; lia).
  rewrite (@nth_map_in (vec * R) R _ _ j (([] : vec), 0%R))
    by (rewrite length_combine, Hw, Hb; lia).
  rewrite combine_nth by congruence. cbn [fst snd].
  rewrite dot_as_sum, Hv; [reflexivity|].
  rewrite Forall_forall in Hrows. rewrite Hv. apply Hrows.
  apply nth_In. lia.
Qed.

Section ForwardFacts.

Variable input : Type.
Variable m : SimCSEModel input.
Variable x : input.
Hypothesis Hshape : hidden_states_wf (backbone m x).

(** On a tensor that fills its shape the raw mode fails exactly when the
    sequence axis is empty. *)
Lemma forward_raw_none_iff :
  forward m x false = None <-> seq_len (backbone m x) = 0.
Proof.
  split.
  - intros Hnone. destruct (seq_len (backbone m x)) as [|n] eqn:E;
      [reflexivity|].
    destruct (cls_pool_defined Hshape) as [Hpool _]; [lia|].
    unfold forward in Hnone. rewrite Hpool in Hnone. discriminate.
  - intros E. unfold forward. now rewrite (cls_pool_empty_axis _ E).
Qed.

(** When the hidden axis has the width the dense layer takes, the rows
    of the projected mode are the head applied to the rows of the raw
    mode. *)
Lemma forward_projects_raw (raw : matrix) :
  forward m x false = Some raw ->
  width (backbone m x) = in_features (dense m) ->
  forward m x true
  = Some (map (fun v => activation (affine (dense m) v)) raw).
Proof.
  intros Hraw Hwidth.
  assert (Hpos : 1 <= seq_len (backbone m x)).
  { destruct (seq_len (backbone m x)) as [|n] eqn:E; [|lia].
    apply forward_raw_none_iff in E. congruence. }
  destruct (cls_pool_defined Hshape Hpos) as [Hpool Hw].
  unfold forward in *. rewrite Hpool in *. injection Hraw as <-.
  rewrite Hwidth, Nat.eqb_refl.
  rewrite (@mapM_ext_map _ _ _ (affine (dense m))).
  - now rewrite map_map.
  - intros v Hv. unfold linear_apply. rewrite Forall_forall in Hw.
    rewrite (Hw v Hv), Hwidth, Nat.eqb_refl. reflexivity.
Qed.

(** The projected mode fails exactly when the sequence axis is empty or
    the hidden axis has not the width the dense layer takes. *)
Lemma forward_projected_none_iff :
  forward m x true = None
  <-> seq_len (backbone m x) = 0
      \/ width (backbone m x) <> in_features (dense m).
Proof.
  split.
  - intros Hnone.
    destruct (forward m x false) as [raw|] eqn:Eraw.
    + right. intros Hwidth.
      rewrite (forward_projects_raw Eraw Hwidth) in Hnone. discriminate.
    + left. now apply forward_raw_none_iff.
  - intros [E|Hne].
    + unfold forward. now rewrite (cls_pool_empty_axis _ E).
    + unfold forward. destruct (cls_pool (backbone m x)); [|reflexivity].
      destruct (Nat.eqb_spec (width (backbone m x)) (in_features (dense m)));
        [contradiction | reflexivity].
Qed.

End ForwardFacts.

Lemma head_model_wf (len : nat) : SimCSEModel_wf (head_model len).
Proof.
  unfold SimCSEModel_wf, Linear_wf. simpl. repeat split.
  repeat constructor.
Qed.

Lemma head_model_shape (len : nat) (x : list (line ascii)) :
  hidden_states_wf (backbone (head_model len) x).
Proof.
  unfold hidden_states_wf. simpl. apply Forall_forall. intros positions Hin.
  apply in_map_iff in Hin. destruct Hin as [s [<- _]]. split.
  - now rewrite length_map, length_seq.
  - apply Forall_forall. intros v Hv. apply in_map_iff in Hv.
    destruct Hv as [k [<- _]]. reflexivity.
Qed.

(** C5. The wrapper pools the first sequence position of the backbone's
    final hidden states.  With [use_mlp] false it returns the pooled
    vectors as they are.  With [use_mlp] true it returns one row per
    sequence, of width [hidden_size], whose component [j] for sequence
    [i] is the Tanh of the sum over [k] of component [k] of the first
    position of sequence [i] times [weight[j][k]], plus [bias[j]]; it
    lies in [-1, 1]. *)
Theorem forward_pools_then_projects_in_training_mode :
  forall (input : Type) (m : SimCSEModel input) (x : input),
    SimCSEModel_wf m ->
    hidden_states_wf (backbone m x) ->
    width (backbone m x) = hidden_size m ->
    1 <= seq_len (backbone m x) ->
    forward m x false
    = Some (map (fun positions => nth 0 positions [])
                (entries (backbone m x)))
    /\ exists projected,
         forward m x true = Some projected
         /\ length projected = length (entries (backbone m x))
         /\ forall i j,
              i < length (entries (backbone m x)) -> j < hidden_size m ->
              length (nth i projected []) = hidden_size m
              /\ nth j (nth i projected []) 0%R
                 = tanh (fold_right Rplus 0%R
                           (map (fun k =>
                                   (nth k (nth 0 (nth i (entries (backbone m x)) [])
                                                 []) 0
                                    * nth k (nth j (weight (dense m)) []) 0)%R)
                                (seq 0 (hidden_size m)))
                         + nth j (bias (dense m)) 0)%R
              /\ (-1 <= nth j (nth i projected []) 0 <= 1)%R.
Proof.
  intros input m x Hm Hshape Hwidth Hpos.
  destruct (cls_pool_defined Hshape Hpos) as [Hpool Hw].
  rewrite Hwidth in Hw.
  assert (Hraw : forward m x false
                 = Some (map (fun positions => nth 0 positions [])
                             (entries (backbone m x))))
    by (unfold forward; now rewrite Hpool).
  split; [exact Hraw|].
  destruct Hm as [Hin [Hout Hl]].
  assert (Hproj := @forward_projects_raw input m x Hshape _ Hraw).
  rewrite Hwidth, Hin in Hproj. specialize (Hproj eq_refl).
  eexists. split; [exact Hproj|]. split; [now rewrite !length_map|].
  intros i j Hi Hj.
  rewrite (@nth_map_in vec vec _ _ i []) by (now rewrite length_map).
  rewrite (@nth_map_in matrix vec _ _ i []) by exact Hi.
  set (v := nth 0 (nth i (entries (backbone m x)) []) []).
  assert (Hv : length v = hidden_size m).
  { rewrite Forall_forall in Hw. apply Hw. unfold v.
    apply in_map_iff. exists (nth i (entries (backbone m x)) []).
    split; [reflexivity | now apply nth_In]. }
  split; [|split].
  - unfold activation. rewrite length_map, affine_length by exact Hl.
    exact Hout.
  - rewrite head_entry;
      [now rewrite Hin | exact Hl | now rewrite Hin | now rewrite Hout].
  - pose proof (activation_bounds (affine (dense m) v)) as Hb.
    rewrite Forall_forall in Hb. apply Hb. apply nth_In.
    unfold activation. rewrite length_map, affine_length by exact Hl. lia.
Qed.

(** Two samples of two and of one character, two positions each: the
    first positions are [2, 1] and [1, 1], and the head of weight
    [[1, 2], [3, 4]] and bias [5, 6] maps them to the Tanh of [9, 16] and
    of [8, 13]. *)
Lemma forward_pools_then_projects_in_training_mode_witness :
  forward (head_model 2) [text "ab"; text "c"] false
  = Some [[2; 1]; [1; 1]]%R
  /\ exists projected,
       forward (head_model 2) [text "ab"; text "c"] true = Some projected
       /\ length projected = 2
       /\ nth 0 (nth 0 projected []) 0%R = tanh 9
       /\ nth 1 (nth 0 projected []) 0%R = tanh 16
       /\ nth 0 (nth 1 projected []) 0%R = tanh 8
       /\ nth 1 (nth 1 projected []) 0%R = tanh 13.
Proof.
  destruct (@forward_pools_then_projects_in_training_mode
              (list (line ascii)) (head_model 2) [text "ab"; text "c"]
              (head_model_wf 2) (head_model_shape 2 _))
    as [Hraw [projected [Hproj [Hlen Hc]]]].
  - reflexivity.
  - simpl. lia.
  - split.
    + rewrite Hraw. simpl. repeat f_equal; lra.
    + exists projected. split; [exact Hproj|]. split; [exact Hlen|].
      repeat split.
      * destruct (Hc 0 0) as [_ [-> _]]; [simpl; lia | simpl; lia |].
        f_equal. simpl. lra.
      * destruct (Hc 0 1) as [_ [-> _]]; [simpl; lia | simpl; lia |].
        f_equal. simpl. lra.
      * destruct (Hc 1 0) as [_ [-> _]]; [simpl; lia | simpl; lia |].
        f_equal. simpl. lra.
      * destruct (Hc 1 1) as [_ [-> _]]; [simpl; lia | simpl; lia |].
        f_equal. simpl. lra.
Defined.

(* ------------------------------------------------------------------ *)
(** ** The contrastive objective *)
(* ------------------------------------------------------------------ *)

Lemma map_nth_seq {A B : Type} (g : A -> B) (d : A) (l : list A) :
  map (fun i => g (nth i l d)) (seq 0 (length l)) = map g l.
Proof.
  induction l as [|x r IH]; simpl; [reflexivity|].
  f_equal. rewrite <- seq_shift, map_map. exact IH.
Qed.

Lemma bsize_1_r (n : nat) : bsize n 1 = Some n.
Proof.
  unfold bsize. destruct (Nat.eqb_spec n 1) as [->|]; reflexivity.
Qed.

Lemma bsize_1_l (n : nat) : bsize 1 n = Some n.
Proof.
  unfold bsize. destruct (Nat.eqb_spec 1 n) as [<-|]; reflexivity.
Qed.

Lemma bget_in_range {A : Type} (l : list A) (i : nat) (d : A) :
  (i < length l)%nat -> bget l i = Some (nth i l d).
Proof.
  intros Hi. unfold bget.
  destruct l as [|x [|y r]].
  - simpl in Hi. lia.
  - simpl in Hi. assert (i = 0)%nat as -> by lia. reflexivity.
  - now apply nth_error_nth'.
Qed.

Lemma rsum_exp_pos (row : vec) : row <> [] -> (0 < rsum (map exp row))%R.
Proof.
  destruct row as [|x r]; [congruence|]. intros _. simpl.
  pose proof (exp_pos x) as Hx.
  assert (0 <= rsum (map exp r))%R.
  { induction r as [|y r IH]; simpl; [lra|].
    pose proof (exp_pos y). lra. }
  lra.
Qed.

(** The kernel's [log(sum(exp)) - x_k] is the negative logarithm of the
    softmax probability of class [k]. *)
Lemma nll_is_cross_entropy (row : vec) (k : nat) :
  (k < length row)%nat -> nll row k = Some (spec_cross_entropy row k).
Proof.
  intros Hk. unfold nll, spec_cross_entropy, softmax_at.
  rewrite (nth_error_nth' row 0%R Hk).
  assert (Hs : (0 < rsum (map exp row))%R).
  { apply rsum_exp_pos. destruct row; simpl in Hk; [lia | congruence]. }
  unfold Rdiv.
  rewrite ln_mult by (try apply exp_pos; now apply Rinv_0_lt_compat).
  rewrite ln_Rinv by exact Hs.
  rewrite ln_exp. f_equal. lra.
Qed.

Section ObjectiveFacts.

Variable cosine : vec -> vec -> R.

(** Broadcasting (B1, 1, H) against (1, B2, H) pairs every row of the
    first matrix with every row of the second. *)
Lemma cosine_similarity_pairs (e1 e2 : matrix) :
  cosine_similarity cosine (unsqueeze1 e1) (unsqueeze0 e2)
  = Some (map (fun u => map (cosine u) e2) e1).
Proof.
  unfold cosine_similarity, unsqueeze1, unsqueeze0, bzip at 1.
  rewrite length_map. simpl length. rewrite bsize_1_r.
  rewrite <- (map_nth_seq (fun u => map (cosine u) e2) [] e1).
  apply mapM_ext_map. intros i Hi. apply in_seq in Hi.
  rewrite (@bget_in_range _ (map (fun r => [r]) e1) i [[]])
    by (rewrite length_map; lia).
  replace (nth i (map (fun r : vec => [r]) e1) [[]]) with [nth i e1 []]
    by (symmetry; apply (map_nth (fun r : vec => [r]))).
  cbn [bget]. unfold bzip. simpl length. rewrite bsize_1_l.
  rewrite <- (map_nth_seq (cosine (nth i e1 [])) [] e2).
  apply mapM_ext_map. intros j Hj. apply in_seq in Hj.
  cbn [bget]. rewrite (@bget_in_range _ e2 j []) by lia. reflexivity.
Qed.

Lemma sim_matrix_spec (temperature : R) (e1 e2 : matrix) :
  sim_matrix cosine temperature e1 e2
  = Some (map (spec_row cosine temperature e1 e2) (seq 0 (length e1))).
Proof.
  unfold sim_matrix. rewrite cosine_similarity_pairs. f_equal.
  rewrite map_map.
  rewrite <- (map_nth_seq
                (fun u => map (fun s => (s / temperature)%R) (map (cosine u) e2))
                [] e1).
  apply map_ext. intros i. unfold spec_row, spec_entry.
  rewrite map_map.
  rewrite <- (map_nth_seq (fun v => (cosine (nth i e1 []) v / temperature)%R)
                [] e2).
  reflexivity.
Qed.

Lemma spec_row_length (temperature : R) (e1 e2 : matrix) (i : nat) :
  length (spec_row cosine temperature e1 e2 i) = length e2.
Proof. unfold spec_row. now rewrite length_map, length_seq. Qed.

Lemma combine_map_seq {A : Type} (f : nat -> A) (n : nat) :
  combine (map f (seq 0 n)) (seq 0 n) = map (fun i => (f i, i)) (seq 0 n).
Proof.
  generalize 0%nat as s. induction n as [|n IH]; intros s; simpl.
  - reflexivity.
  - now rewrite IH.
Qed.

(** When the label vector is as long as the matrix has rows and every
    label indexes a column, the loss is the mean of the row losses. *)
Lemma contrastive_loss_spec (bs : Z) (temperature : R) (e1 e2 : matrix) :
  length e1 = Z.to_nat bs -> (length e1 <= length e2)%nat ->
  contrastive_loss cosine bs temperature e1 e2
  = Some (spec_loss cosine temperature e1 e2).
Proof.
  intros H1 H2. unfold contrastive_loss.
  rewrite sim_matrix_spec. unfold cross_entropy, arange.
  rewrite <- H1.
  rewrite length_map, !length_seq, Nat.eqb_refl.
  rewrite combine_map_seq.
  rewrite (@mapM_ext_map _ _ _
             (fun rk => spec_cross_entropy (fst rk) (snd rk))).
  - unfold spec_loss. rewrite map_map. reflexivity.
  - intros [row k] Hin. apply in_map_iff in Hin.
    destruct Hin as [i [[= <- <-] Hi]]. apply in_seq in Hi.
    cbn [fst snd]. apply nll_is_cross_entropy.
    rewrite spec_row_length. lia.
Qed.

(** The loss fails exactly when the number of rows differs from the
    configured batch size (for two embedding matrices of the same batch). *)
Lemma contrastive_loss_defined (bs : Z) (temperature : R) (e1 e2 : matrix) :
  length e2 = length e1 ->
  (contrastive_loss cosine bs temperature e1 e2 <> None
   <-> length e1 = Z.to_nat bs).
Proof.
  intros H. split.
  - unfold contrastive_loss. rewrite sim_matrix_spec.
    unfold cross_entropy, arange.
    rewrite length_map, !length_seq.
    destruct (Nat.eqb_spec (length e1) (Z.to_nat bs)); [auto | congruence].
  - intros E. rewrite contrastive_loss_spec by lia. discriminate.
Qed.

End ObjectiveFacts.



(* ------------------------------------------------------------------ *)
(** ** The training loop *)
(* ------------------------------------------------------------------ *)

Lemma forward_defined {X : Type} (m : SimCSEModel (list X)) (x : list X) :
  encoder_ok m ->
  exists emb, forward m x true = Some emb /\ length emb = length x.
Proof.
  intros [[Hin [Hout Hwf]] Hb].
  destruct (Hb x) as [Hlen [Hpos [Hwidth Hshape]]].
  destruct (@cls_pool_first _ _ Hpos Hshape) as [Hpool Hw].
  set (pooled := map (fun positions => nth 0 positions [])
                     (entries (backbone m x))) in *.
  exists (map activation (map (affine (dense m)) pooled)). split.
  - unfold forward. rewrite Hpool, Hwidth, Hin, Nat.eqb_refl.
    rewrite (@mapM_ext_map _ _ _ (affine (dense m))); [reflexivity|].
    intros v Hv. unfold linear_apply.
    rewrite Forall_forall in Hw. rewrite (Hw v Hv), Hin, Nat.eqb_refl.
    reflexivity.
  - rewrite !length_map. apply cls_pool_length in Hpool. congruence.
Qed.

Section TraceFacts.

Variables score P : Type.

Lemma saves_app (a b : list (event score P)) :
  saves (a ++ b) = saves a ++ saves b.
Proof.
  induction a as [|ev a IH]; simpl; [reflexivity|].
  destruct ev; simpl; now rewrite IH.
Qed.

Lemma evaluations_app (a b : list (event score P)) :
  evaluations (a ++ b) = evaluations a ++ evaluations b.
Proof.
  induction a as [|ev a IH]; simpl; [reflexivity|].
  destruct ev; simpl; now rewrite IH.
Qed.

Lemma scan_app (ph ph' : phase) (a b : list (event score P)) :
  scan ph a = Some ph' -> scan ph (a ++ b) = scan ph' b.
Proof.
  revert ph. induction a as [|ev a IH]; intros ph; simpl.
  - now intros [= ->].
  - destruct (phase_step ph ev); [apply IH | discriminate].
Qed.

Lemma nondecreasing_snoc (lt : score -> score -> bool) (l : list score) (a b : score) :
  nondecreasing lt (l ++ [a]) -> lt a b = true \/ a = b ->
  nondecreasing lt ((l ++ [a]) ++ [b]).
Proof.
  intros H Hab. induction l as [|x l IH]; simpl.
  - auto.
  - simpl in H. destruct (l ++ [a]) as [|y r] eqn:E.
    + destruct l; discriminate.
    + simpl. destruct H as [H1 H2]. split; [exact H1|]. now apply IH.
Qed.

End TraceFacts.

Section MainFacts.

Variable char : Type.
Variable isspace : char -> bool.
Variable score : Type.
Variable score_lt : score -> score -> bool.
Variable P : Type.
Variable model_at : P -> bool -> nat -> option Z -> SimCSEModel (list (line char)).
Variable optimizer_step : R -> Z -> P -> nat -> list (line char) -> P.
Variable sts_dev : (list (line char) -> option matrix) -> score.
Variable shuffle : Z -> list (line char) -> list (line char).
Variable cosine : vec -> vec -> R.

Local Abbreviation st_t := (state score P).
Local Abbreviation train_step' := (@train_step char score P model_at optimizer_step cosine).
Local Abbreviation evaluate' := (@evaluate char score score_lt P model_at sts_dev).
Local Abbreviation step_body' :=
  (@step_body char score score_lt P model_at optimizer_step sts_dev cosine).
Local Abbreviation epoch_body' :=
  (@epoch_body char score score_lt P model_at optimizer_step sts_dev shuffle cosine).
Local Abbreviation main' :=
  (@main char isspace score score_lt P model_at optimizer_step sts_dev shuffle cosine).
Local Abbreviation initial_state' := (@initial_state char score P model_at sts_dev).
Local Abbreviation score_now cfg st :=
  (sts_dev (encode model_at cfg (params st) false (draws st))).


(** *** What each piece of the loop body does to the state *)

Lemma train_step_fields (cfg : Args) (e s : Z) (b : list (line char))
  (st st' : st_t) (loss : R) :
  train_step' cfg e s b st = inr (loss, st') ->
  trace st' = trace st ++ [OptimizerStep e (s + 1)]
  /\ best_stsb st' = best_stsb st
  /\ best_step st' = best_step st
  /\ bests st' = bests st
  /\ logs st' = logs st
  /\ training st' = training st.
Proof.
  unfold train_step.
  destruct (forward _ b true); [|discriminate].
  destruct (forward _ b true); [|discriminate].
  destruct (contrastive_loss _ _ _ _ _); [|discriminate].
  intros [= _ <-]. simpl. auto 10.
Qed.

Lemma evaluate_fields (cfg : Args) (e s : Z) (loss : R) (st : st_t) :
  let sc := score_now cfg st in
  let better := score_lt (best_stsb st) sc in
  let st' := evaluate' cfg e s loss st in
  trace st' = trace st
              ++ [ModelEval; StsDev e (s + 1) sc]
              ++ (if better then [TorchSave e (s + 1) (params st)] else [])
              ++ [ModelTrain]
  /\ best_stsb st' = (if better then sc else best_stsb st)
  /\ best_step st' = (if better then (s + 1)%Z else best_step st)
  /\ bests st' = bests st ++ [(best_stsb st', best_step st')]
  /\ logs st' = logs st ++ [[("epoch"%string, VInt e);
                              ("step"%string, VInt (s + 1));
                              ("loss"%string, VFloat loss);
                              ("stsb"%string, VScore sc)]]
  /\ training st' = true.
Proof.
  unfold evaluate, update_best. simpl.
  destruct (score_lt (best_stsb st) _); simpl;
    repeat rewrite <- app_assoc; simpl; auto 10.
Qed.

(** *** Invariants of the run *)

Lemma for_each_inv {X : Type} (body : X -> st_t -> st_t * option exn)
  (Inv : st_t -> Prop) :
  (forall x st st' r, Inv st -> body x st = (st', r) -> Inv st') ->
  forall xs st st' r, Inv st -> for_each body xs st = (st', r) -> Inv st'.
Proof.
  intros Hbody xs. induction xs as [|x xs IH]; intros st st' r Hst; simpl.
  - now intros [= <- _].
  - destruct (body x st) as [st1 [e|]] eqn:E.
    + intros [= <- _]. eapply Hbody; eauto.
    + apply IH. eapply Hbody; eauto.
Qed.

(** A property of the state that the evaluation at step 0 establishes and
    that mode switches, updates and evaluations preserve holds when the
    loops end, however they end. *)
Lemma main_inv (Inv : st_t -> Prop) (cfg : Args) (file_lines : list (line char))
  (p0 : P) :
  Inv (initial_state' cfg p0) ->
  (forall st, Inv st -> Inv (set_mode true st)) ->
  (forall e s b st loss st',
      Inv st -> train_step' cfg e s b st = inr (loss, st') -> Inv st') ->
  (forall e s loss st, Inv st -> Inv (evaluate' cfg e s loss st)) ->
  forall st r, main' cfg file_lines p0 = Ran st r -> Inv st.
Proof.
  intros H0 Hmode Htrain Heval st r. unfold main.
  destruct (_ || _)%bool; [discriminate|].
  destruct (for_each _ _ _) as [st1 r1] eqn:E. intros [= <- <-].
  revert E. apply for_each_inv; [|exact H0].
  intros epoch sa sb rb Hsa. unfold epoch_body.
  apply for_each_inv; [|now apply Hmode].
  intros [step b] sc sd rd Hsc. unfold step_body. cbn [fst snd].
  destruct (train_step' cfg epoch step b sc) as [ex|[loss se]] eqn:Et.
  - now intros [= <- _].
  - assert (Hse : Inv se) by (eapply Htrain; eauto).
    destruct (eval_due _ _ _) as [[|]|].
    + intros [= <- _]. now apply Heval.
    + now intros [= <- _].
    + now intros [= <- _].
Qed.


Lemma run_follows_policy (cfg : Args) (file_lines : list (line char)) (p0 : P)
  (st : st_t) (r : option exn) :
  main' cfg file_lines p0 = Ran st r ->
  follows_policy score_lt (sts_dev (encode model_at cfg p0 false 0)) st.
Proof.
  set (s0 := sts_dev (encode model_at cfg p0 false 0)).
  apply main_inv.
  - exists []. split; reflexivity.
  - intros sa [later [H1 H2]]. exists later. simpl.
    rewrite evaluations_app, saves_app. simpl. rewrite !app_nil_r. auto.
  - intros e s b sa loss sb [later [H1 H2]] Ht.
    apply train_step_fields in Ht.
    destruct Ht as [T [B1 [B2 [B3 _]]]].
    exists later. rewrite T, B1, B2, B3, evaluations_app, saves_app.
    simpl. rewrite !app_nil_r. auto.
  - intros e s loss sa [later [H1 H2]].
    destruct (evaluate_fields cfg e s loss sa) as [T [B1 [B2 [B3 _]]]].
    exists (later ++ [(e, (s + 1)%Z, score_now cfg sa)]).
    rewrite T, B3, B1, B2, evaluations_app, saves_app, H1. split.
    + simpl. destruct (score_lt _ _); reflexivity.
    + unfold policy_run in *. rewrite fold_left_app, H2. simpl.
      destruct (score_lt _ _); simpl; rewrite ?map_app, ?app_nil_r; reflexivity.
Qed.

(** The history of the best score never goes down and ends with the
    current best. *)
Lemma run_bests_nondecreasing (cfg : Args) (file_lines : list (line char))
  (p0 : P) (st : st_t) (r : option exn) :
  main' cfg file_lines p0 = Ran st r ->
  exists l, map fst (bests st) = l ++ [best_stsb st]
            /\ nondecreasing score_lt (l ++ [best_stsb st]).
Proof.
  apply (main_inv (fun st => exists l, map fst (bests st) = l ++ [best_stsb st]
            /\ nondecreasing score_lt (l ++ [best_stsb st]))).
  - exists []. simpl. auto.
  - intros sa H. exact H.
  - intros e s b sa loss sb [l [H1 H2]] Ht.
    apply train_step_fields in Ht. destruct Ht as [_ [B1 [_ [B3 _]]]].
    exists l. now rewrite B3, B1.
  - intros e s loss sa [l [H1 H2]].
    destruct (evaluate_fields cfg e s loss sa) as [_ [B1 [B2 [B3 _]]]].
    exists (l ++ [best_stsb sa]).
    rewrite B3, map_app, H1. cbn [map fst]. split; [reflexivity|].
    apply nondecreasing_snoc; [exact H2|].
    rewrite B1. destruct (score_lt (best_stsb sa) _) eqn:E; auto.
Qed.


Lemma run_best_is_last_save (cfg : Args) (file_lines : list (line char))
  (p0 : P) (st : st_t) (r : option exn) :
  main' cfg file_lines p0 = Ran st r ->
  best_is_last_save (sts_dev (encode model_at cfg p0 false 0)) st.
Proof.
  apply main_inv; unfold best_is_last_save, last_save.
  - simpl. auto.
  - intros sa H. simpl. rewrite saves_app, evaluations_app. simpl.
    now rewrite !app_nil_r.
  - intros e s b sa loss sb H Ht.
    apply train_step_fields in Ht. destruct Ht as [T [B1 [B2 _]]].
    rewrite T, B1, B2, saves_app, evaluations_app. simpl.
    now rewrite !app_nil_r.
  - intros e s loss sa H.
    destruct (evaluate_fields cfg e s loss sa) as [T [B1 [B2 _]]].
    rewrite T, B1, B2, saves_app, evaluations_app.
    destruct (score_lt (best_stsb sa) _) eqn:E; simpl.
    + rewrite rev_unit. split; [reflexivity|].
      apply in_or_app. right. now left.
    + rewrite app_nil_r.
      destruct (rev (saves (trace sa))) as [|[[e1 s1] p1] ?].
      * exact H.
      * destruct H as [H1 H2]. split; [exact H1|].
        apply in_or_app. now left.
Qed.

(** *** Exceptions *)

Lemma for_each_raise {X : Type} (body : X -> st_t -> st_t * option exn)
  (xs : list X) (st st' : st_t) (e : exn) :
  for_each body xs st = (st', Some e) ->
  exists x sa sb, In x xs /\ body x sa = (sb, Some e).
Proof.
  revert st. induction xs as [|x xs IH]; intros st; simpl.
  - discriminate.
  - destruct (body x st) as [st1 [e1|]] eqn:E.
    + intros [= <- <-]. exists x, st, st1. auto.
    + intros H. destruct (IH _ H) as [y [sa [sb [Hy Hb]]]].
      exists y, sa, sb. auto.
Qed.

Lemma train_step_defined (cfg : Args) (e s : Z) (b : list (line char)) (st : st_t) :
  (forall p tr k ml, encoder_ok (model_at p tr k ml)) ->
  length b = Z.to_nat (batch_size cfg) ->
  exists loss st', train_step' cfg e s b st = inr (loss, st').
Proof.
  intros Hok Hb. unfold train_step.
  destruct (forward_defined b (Hok (params st) (training st) (draws st)
                                   (Some (max_seq_len cfg))))
    as [emb1 [-> H1]].
  destruct (forward_defined b (Hok (params st) (training st) (S (draws st))
                                   (Some (max_seq_len cfg))))
    as [emb2 [-> H2]].
  rewrite contrastive_loss_spec by lia. eauto.
Qed.

(** The loss a training step logs is the objective of the two forward
    passes of that step. *)
Lemma train_step_loss (cfg : Args) (e s : Z) (b : list (line char)) (st : st_t) :
  (forall p tr k ml, encoder_ok (model_at p tr k ml)) ->
  length b = Z.to_nat (batch_size cfg) ->
  exists emb1 emb2 st',
    forward (model_at (params st) (training st) (draws st)
                      (Some (max_seq_len cfg))) b true = Some emb1
    /\ forward (model_at (params st) (training st) (S (draws st))
                         (Some (max_seq_len cfg))) b true = Some emb2
    /\ train_step' cfg e s b st
       = inr (spec_loss cosine (temperature cfg) emb1 emb2, st').
Proof.
  intros Hok Hb. unfold train_step.
  destruct (forward_defined b (Hok (params st) (training st) (draws st)
                                   (Some (max_seq_len cfg))))
    as [emb1 [E1 H1]].
  destruct (forward_defined b (Hok (params st) (training st) (S (draws st))
                                   (Some (max_seq_len cfg))))
    as [emb2 [E2 H2]].
  exists emb1, emb2. rewrite E1, E2.
  rewrite contrastive_loss_spec by lia. eauto.
Qed.

(** With a backbone that returns one sequence per sample, the loss of a
    step is defined exactly on the batches of [batch_size] samples. *)
Lemma train_step_shape (cfg : Args) (e s : Z) (b : list (line char)) (st : st_t) :
  (forall p tr k ml x,
      length (entries (backbone (model_at p tr k ml) x)) = length x) ->
  (length b = Z.to_nat (batch_size cfg) ->
   train_step' cfg e s b st <> inl LossShapeError)
  /\ (forall loss st', train_step' cfg e s b st = inr (loss, st') ->
                       length b = Z.to_nat (batch_size cfg))
  /\ (length b <> Z.to_nat (batch_size cfg) ->
      train_step' cfg e s b st = inl LossShapeError
      \/ train_step' cfg e s b st = inl ForwardError).
Proof.
  intros Hrows. unfold train_step.
  destruct (forward _ b true) as [emb1|] eqn:E1.
  2:{ repeat split; try discriminate. auto. }
  destruct (forward _ b true) as [emb2|] eqn:E2 in |- *.
  2:{ repeat split; try discriminate. auto. }
  apply forward_rows in E1. apply forward_rows in E2.
  rewrite Hrows in E1, E2.
  pose proof (@contrastive_loss_defined cosine (batch_size cfg)
                (temperature cfg) emb1 emb2) as Hd.
  rewrite E1 in Hd. specialize (Hd E2).
  destruct (contrastive_loss _ _ _ _ _) as [loss|].
  - assert (Hb : length b = Z.to_nat (batch_size cfg))
      by (apply Hd; discriminate).
    repeat split; try discriminate; try (intros; exact Hb).
    intros Hne. contradiction.
  - repeat split; try discriminate.
    + intros Hb. apply Hd in Hb. congruence.
    + auto.
Qed.

(** *** The evaluation points and the mode discipline *)



Lemma eval_due_nonzero (cfg : Args) (L : Z) (k : nat) :
  eval_logging_interval cfg <> 0%Z ->
  eval_due cfg L (Z.of_nat k) = Some (due cfg L (Z.of_nat (S k))).
Proof.
  intros HK. unfold eval_due, due.
  destruct (Z.eqb_spec (eval_logging_interval cfg) 0); [contradiction|].
  now rewrite Nat2Z.inj_succ, <- Z.add_1_r.
Qed.

(** The inner loop from step [k] on: every step updates, the steps that
    are due evaluate, nothing raises, and the loop leaves the model in
    training mode. *)
Lemma steps_run (cfg : Args) (L e : Z) :
  eval_logging_interval cfg <> 0%Z ->
  (forall p tr k ml, encoder_ok (model_at p tr k ml)) ->
  forall (bs : list (list (line char))) (k : nat) (st : st_t),
    Forall (fun b => length b = Z.to_nat (batch_size cfg)) bs ->
    scan MTrain (trace st) = Some MTrain ->
    exists st',
      for_each (step_body' cfg L e)
               (combine (map Z.of_nat (seq k (length bs))) bs) st = (st', None)
      /\ points_of (trace st')
         = points_of (trace st)
           ++ map (fun s => (e, s))
                  (filter (due cfg L)
                          (map (fun i => Z.of_nat (S i)) (seq k (length bs))))
      /\ scan MTrain (trace st') = Some MTrain.
Proof.
  intros HK Hok bs. induction bs as [|b bs IH]; intros k st Hbs Hscan.
  - exists st. simpl. rewrite app_nil_r. auto.
  - inversion Hbs as [|? ? Hb Hrest]; subst.
    cbn [length seq map combine for_each filter].
    unfold step_body at 1. cbn [fst snd].
    destruct (train_step_defined cfg e (Z.of_nat k) b st Hok Hb)
      as [loss [st1 Ht]].
    rewrite Ht, (eval_due_nonzero cfg L k HK).
    apply train_step_fields in Ht. destruct Ht as [T _].
    assert (Hscan1 : scan MTrain (trace st1) = Some MTrain).
    { rewrite T, (@scan_app _ _ _ _ _ _ Hscan). reflexivity. }
    assert (Hp1 : points_of (trace st1) = points_of (trace st)).
    { unfold points_of. rewrite T, evaluations_app. simpl.
      now rewrite app_nil_r. }
    destruct (due cfg L (Z.of_nat (S k))) eqn:Ed.
    + destruct (evaluate_fields cfg e (Z.of_nat k) loss st1) as [T2 _].
      set (st2 := evaluate' cfg e (Z.of_nat k) loss st1) in *.
      destruct (IH (S k) st2 Hrest) as [st' [Hrun [Hpts Hsc]]].
      { rewrite T2, (@scan_app _ _ _ _ _ _ Hscan1).
        destruct (score_lt _ _); reflexivity. }
      exists st'. split; [exact Hrun|]. split; [|exact Hsc].
      rewrite Hpts. unfold points_of at 1. rewrite T2, evaluations_app.
      fold (points_of (trace st1)).
      rewrite map_app, <- Hp1, <- app_assoc. f_equal.
      replace (Z.of_nat k + 1)%Z with (Z.of_nat (S k)) by lia.
      destruct (score_lt _ _); reflexivity.
    + destruct (IH (S k) st1 Hrest Hscan1) as [st' [Hrun [Hpts Hsc]]].
      exists st'. split; [exact Hrun|]. split; [|exact Hsc].
      now rewrite Hpts, Hp1.
Qed.

Lemma batches_count (cfg : Args) (data : list (line char)) (e : Z) :
  (0 < batch_size cfg)%Z ->
  (forall e d, Permutation (shuffle e d) d) ->
  length (epoch_batches shuffle cfg data e)
  = Z.to_nat (dataloader_len (Z.of_nat (length data)) (batch_size cfg)).
Proof.
  intros HB Hperm. unfold epoch_batches, batch_sampler, dataloader_len.
  destruct (@batch_sampler_iter_spec _ (length (shuffle e data))
              (Z.to_nat (batch_size cfg)) (shuffle e data))
    as [H1 _]; [lia | lia |].
  rewrite H1, (Permutation_length (Hperm e data)).
  rewrite Z2Nat.inj_div by lia. now rewrite Nat2Z.id.
Qed.

Lemma epoch_run (cfg : Args) (data : list (line char)) :
  (0 < batch_size cfg)%Z ->
  eval_logging_interval cfg <> 0%Z ->
  (forall p tr k ml, encoder_ok (model_at p tr k ml)) ->
  (forall e d, Permutation (shuffle e d) d) ->
  let L := dataloader_len (Z.of_nat (length data)) (batch_size cfg) in
  forall (e : Z) (st : st_t) (ph : phase),
    scan MTrain (trace st) = Some ph ->
    exists st',
      epoch_body' cfg data e st = (st', None)
      /\ points_of (trace st') = points_of (trace st) ++ epoch_points cfg L e
      /\ scan MTrain (trace st') = Some MTrain.
Proof.
  intros HB HK Hok Hperm L e st ph Hscan.
  unfold epoch_body, enumerate. fold L.
  destruct (@steps_run cfg L e HK Hok (epoch_batches shuffle cfg data e) 0
              (set_mode true st)) as [st' [Hrun [Hpts Hsc]]].
  - apply batches_all_full.
  - simpl. rewrite (@scan_app _ _ _ _ _ _ Hscan). simpl.
    destruct ph; reflexivity.
  - exists st'. split; [exact Hrun|]. split; [|exact Hsc].
    rewrite Hpts. unfold epoch_points.
    rewrite (batches_count cfg data e HB Hperm). fold L.
    f_equal. unfold points_of. simpl. rewrite evaluations_app. simpl.
    now rewrite app_nil_r.
Qed.

Lemma epochs_run (cfg : Args) (data : list (line char)) :
  (0 < batch_size cfg)%Z ->
  eval_logging_interval cfg <> 0%Z ->
  (forall p tr k ml, encoder_ok (model_at p tr k ml)) ->
  (forall e d, Permutation (shuffle e d) d) ->
  let L := dataloader_len (Z.of_nat (length data)) (batch_size cfg) in
  forall (es : list Z) (st : st_t) (ph : phase),
    scan MTrain (trace st) = Some ph ->
    exists st',
      for_each (epoch_body' cfg data) es st = (st', None)
      /\ points_of (trace st')
         = points_of (trace st) ++ flat_map (epoch_points cfg L) es
      /\ scan MTrain (trace st')
         = Some (match es with [] => ph | _ :: _ => MTrain end).
Proof.
  intros HB HK Hok Hperm L es.
  induction es as [|e es IH]; intros st ph Hscan.
  - exists st. simpl. rewrite app_nil_r. auto.
  - destruct (epoch_run cfg data HB HK Hok Hperm e st Hscan)
      as [st1 [Hrun [Hpts Hsc]]].
    destruct (IH st1 MTrain Hsc) as [st' [Hrun' [Hpts' Hsc']]].
    exists st'. cbn [for_each flat_map]. rewrite Hrun.
    split; [exact Hrun'|]. split.
    + rewrite Hpts', Hpts. fold L. now rewrite <- app_assoc.
    + rewrite Hsc'. now destruct es.
Qed.

(** A well-configured run ends without an exception, evaluates exactly
    at the specified points, and keeps the mode discipline. *)
Lemma main_completes (cfg : Args) (file_lines : list (line char)) (p0 : P) :
  (0 < batch_size cfg)%Z ->
  post_init isspace file_lines <> [] ->
  eval_logging_interval cfg <> 0%Z ->
  (forall p tr k ml, encoder_ok (model_at p tr k ml)) ->
  (forall e d, Permutation (shuffle e d) d) ->
  let L := dataloader_len (Z.of_nat (length (post_init isspace file_lines)))
                          (batch_size cfg) in
  exists st,
    main' cfg file_lines p0 = Ran st None
    /\ points_of (trace st) = spec_eval_points cfg L
    /\ ((1 <= epochs cfg)%Z -> mode_discipline (trace st)).
Proof.
  intros HB Hdata HK Hok Hperm L. unfold main.
  destruct (Z.leb_spec (batch_size cfg) 0) as [|_]; [lia|].
  destruct (Nat.eqb_spec (length (post_init isspace file_lines)) 0) as [E|_].
  { destruct (post_init isspace file_lines); [congruence | discriminate]. }
  cbn [orb].
  destruct (@epochs_run cfg (post_init isspace file_lines) HB HK Hok Hperm
              (range (epochs cfg)) (initial_state' cfg p0) MScored)
    as [st [Hrun [Hpts Hsc]]]; [reflexivity|].
  rewrite Hrun. exists st. split; [reflexivity|]. split.
  - rewrite Hpts. fold L. reflexivity.
  - intros He. unfold mode_discipline. rewrite Hsc.
    unfold range. destruct (Z.to_nat (epochs cfg)) eqn:En; [lia|].
    reflexivity.
Qed.

Lemma run_starts_with_evaluation (cfg : Args) (file_lines : list (line char))
  (p0 : P) (st : st_t) (r : option exn) :
  main' cfg file_lines p0 = Ran st r ->
  exists rest,
    trace st = ModelEval
               :: StsDev 0 0 (sts_dev (encode model_at cfg p0 false 0))
               :: rest.
Proof.
  apply (main_inv (fun st => exists rest,
    trace st = ModelEval
               :: StsDev 0 0 (sts_dev (encode model_at cfg p0 false 0))
               :: rest)).
  - exists []. reflexivity.
  - intros sa [rest H]. simpl. rewrite H. eexists. reflexivity.
  - intros e s b sa loss sb [rest H] Ht.
    apply train_step_fields in Ht. destruct Ht as [T _].
    rewrite T, H. eexists. reflexivity.
  - intros e s loss sa [rest H].
    destruct (evaluate_fields cfg e s loss sa) as [T _].
    rewrite T, H. eexists. reflexivity.
Qed.

(** The shape error of the loss is never what ends a run. *)
Lemma main_no_shape_error (cfg : Args) (file_lines : list (line char))
  (p0 : P) (st : st_t) :
  (forall p tr k ml x,
      length (entries (backbone (model_at p tr k ml) x)) = length x) ->
  main' cfg file_lines p0 <> Ran st (Some LossShapeError).
Proof.
  intros Hrows. unfold main.
  destruct (_ || _)%bool; [discriminate|].
  destruct (for_each _ _ _) as [st1 r1] eqn:E. intros [= -> ->].
  apply for_each_raise in E. destruct E as [e [sa [sb [_ E]]]].
  unfold epoch_body in E.
  apply for_each_raise in E. destruct E as [[s b] [sc [sd [Hin E]]]].
  apply in_combine_r in Hin.
  pose proof (batches_all_full (Z.to_nat (batch_size cfg))
                (shuffle e (post_init isspace file_lines))) as Hfull.
  rewrite Forall_forall in Hfull. specialize (Hfull b Hin).
  unfold step_body in E. cbn [fst snd] in E.
  destruct (train_step_shape cfg e s b sc Hrows) as [Hno _].
  specialize (Hno Hfull).
  destruct (train_step' cfg e s b sc) as [ex|[loss se]].
  - injection E as _ ->. congruence.
  - destruct (eval_due _ _ _) as [[|]|]; discriminate.
Qed.

(** *** The log records *)

(** The log starts with the record of step 0, which stores the score
    under "STSB"; every record the loop appends has the keys "epoch",
    "step", "loss", "stsb". *)
Definition logs_shape (st : st_t) : Prop :=
  exists s0 rows,
    logs st = [("epoch"%string, VInt 0%Z); ("step"%string, VInt 0%Z);
               ("loss"%string, VNone); ("STSB"%string, VScore s0)] :: rows
    /\ Forall (fun row => map fst row = ["epoch"; "step"; "loss"; "stsb"]%string
                          /\ cell row "loss" <> None)
              rows
    /\ S (length rows) = length (evaluations (trace st)).

Lemma run_logs_shape (cfg : Args) (file_lines : list (line char)) (p0 : P)
  (st : st_t) (r : option exn) :
  main' cfg file_lines p0 = Ran st r -> logs_shape st.
Proof.
  apply main_inv; unfold logs_shape.
  - exists (sts_dev (encode model_at cfg p0 false 0)), []. simpl. auto.
  - intros sa [s0 [rows [H1 [H2 H3]]]]. exists s0, rows. simpl.
    rewrite evaluations_app. simpl. rewrite app_nil_r. auto.
  - intros e s b sa loss sb [s0 [rows [H1 [H2 H3]]]] Ht.
    apply train_step_fields in Ht. destruct Ht as [T [_ [_ [_ [L _]]]]].
    exists s0, rows. rewrite L, T, evaluations_app. simpl.
    rewrite app_nil_r. auto.
  - intros e s loss sa [s0 [rows [H1 [H2 H3]]]].
    destruct (evaluate_fields cfg e s loss sa) as [T [_ [_ [_ [L _]]]]].
    eexists s0, (rows ++ [_]). rewrite L, T, H1, evaluations_app.
    split; [reflexivity|]. split.
    + apply Forall_app. split; [exact H2|].
      constructor; [|constructor]. split; [reflexivity | discriminate].
    + rewrite !length_app, <- H3.
      destruct (score_lt _ _); simpl; lia.
Qed.

Lemma columns_stable (rows : list (dict score)) :
  Forall (fun row => map fst row = ["epoch"; "step"; "loss"; "stsb"]%string) rows ->
  fold_left (fun cols row => fold_left add_key (map fst row) cols) rows
            ["epoch"; "step"; "loss"; "STSB"; "stsb"]%string
  = ["epoch"; "step"; "loss"; "STSB"; "stsb"]%string.
Proof.
  induction 1 as [|row rows Hrow _ IH]; simpl; [reflexivity|].
  rewrite Hrow. exact IH.
Qed.

(** Whenever the loop has logged at least one record, the table has the
    two score columns. *)
Lemma run_log_columns (cfg : Args) (file_lines : list (line char)) (p0 : P)
  (st : st_t) (r : option exn) :
  main' cfg file_lines p0 = Ran st r ->
  (2 <= length (evaluations (trace st)))%nat ->
  dataframe_columns (logs st)
  = ["epoch"; "step"; "loss"; "STSB"; "stsb"]%string.
Proof.
  intros Hrun Hn.
  destruct (run_logs_shape _ _ _ Hrun) as [s0 [rows [H1 [H2 H3]]]].
  rewrite H1. destruct rows as [|row rows]; [simpl in H3; lia|].
  inversion H2 as [|? ? [Hrow _] Hrest]; subst.
  unfold dataframe_columns. cbn [fold_left map fst]. rewrite Hrow.
  apply columns_stable.
  eapply Forall_impl; [|exact Hrest]. now intros a [Ha _].
Qed.

End MainFacts.

(* ------------------------------------------------------------------ *)
(** ** The best-score policy over a run *)
(* ------------------------------------------------------------------ *)

Lemma ran_inv {score P : Type} (o : outcome score P) :
  finished o = true -> exists st, o = Ran st None.
Proof.
  destruct o as [e|st [e|]]; try discriminate. intros _. now exists st.
Qed.

Lemma policy_run_no_better {score : Type} (lt : score -> score -> bool)
  (s0 : score) (later : list (Z * Z * score)) :
  Forall (fun ev => lt s0 (snd ev) = false) later ->
  fst (fst (policy_run lt s0 later)) = (s0, 0%Z)
  /\ snd (policy_run lt s0 later) = [].
Proof.
  unfold policy_run.
  induction later as [|ev later IH] using rev_ind; intros H.
  - simpl. auto.
  - apply Forall_app in H. destruct H as [H1 H2].
    inversion H2 as [|? ? Hev _]; subst.
    destruct (IH H1) as [I1 I2].
    rewrite fold_left_app. simpl.
    destruct (fold_left (policy_step lt) later _) as [[cur hist] writes].
    simpl in I1, I2. subst cur writes.
    destruct ev as [[e s] sc]. simpl in Hev. simpl. rewrite Hev. auto.
Qed.

(** C2 (as amended). Over a whole run the best score, its step and the
    checkpoint follow the strict policy: an evaluation replaces them (and
    overwrites [model.pt]) exactly when its score is strictly greater than
    the current best, so a tie changes nothing; the best score never goes
    down; and at the end the recorded best step is the step (within its
    epoch) of the last write of [model.pt] when there was one, and is
    still 0, with the score of step 0, when there was none. *)
Theorem best_score_follows_strict_policy :
  forall (char : Type) (isspace : char -> bool)
         (score : Type) (score_lt : score -> score -> bool) (P : Type)
         (model_at : P -> bool -> nat -> option Z -> SimCSEModel (list (line char)))
         (optimizer_step : R -> Z -> P -> nat -> list (line char) -> P)
         (sts_dev : (list (line char) -> option matrix) -> score)
         (shuffle : Z -> list (line char) -> list (line char))
         (cosine : vec -> vec -> R)
         (cfg : Args) (file_lines : list (line char)) (p0 : P)
         (st : state score P) (r : option exn),
    main isspace score_lt model_at optimizer_step sts_dev shuffle cosine
         cfg file_lines p0 = Ran st r ->
    let s0 := sts_dev (encode model_at cfg p0 false 0) in
    follows_policy score_lt s0 st
    /\ ((forall x, score_lt x x = false) ->
        forall e s (sa : state score P),
          update_best score_lt e s (best_stsb sa) sa = sa)
    /\ (exists l, map fst (bests st) = l ++ [best_stsb st]
                  /\ nondecreasing score_lt (l ++ [best_stsb st]))
    /\ best_is_last_save s0 st
    /\ best_metrics_json (Ran st r)
       = match r with
         | None => Some [("step"%string, VInt (best_step st));
                         ("stsb"%string, VScore (best_stsb st))]
         | Some _ => None
         end.
Proof.
  intros char isspace score score_lt P model_at optimizer_step sts_dev
         shuffle cosine cfg file_lines p0 st r Hrun s0.
  split; [exact (run_follows_policy _ _ _ _ _ _ _ _ _ _ Hrun)|].
  split.
  { intros Hirr e s sa. unfold update_best. now rewrite Hirr. }
  split; [exact (run_bests_nondecreasing _ _ _ _ _ _ _ _ _ _ Hrun)|].
  split; [exact (run_best_is_last_save _ _ _ _ _ _ _ _ _ _ Hrun)|].
  destruct r; reflexivity.
Qed.

(** A run of the small world in which the score improves twice. *)
Lemma best_score_follows_strict_policy_witness :
  finished run_improving = true
  /\ map point (saves (trace_of run_improving)) = [(0, 1); (1, 1)]%Z
  /\ map point (evaluations (trace_of run_improving))
     = [(0, 0); (0, 1); (0, 2); (1, 1); (1, 2)]%Z
  /\ exists st,
       run_improving = Ran st None
       /\ follows_policy Z.ltb 1%Z st
       /\ best_is_last_save 1%Z st
       /\ best_step st = 1%Z.
Proof.
  assert (F : finished run_improving = true) by (lazy; reflexivity).
  split; [exact F|].
  split; [lazy; reflexivity|].
  split; [lazy; reflexivity|].
  destruct (ran_inv _ F) as [st E].
  exists st. split; [exact E|].
  assert (S0 : toy_sts_dev (encode (toy_model_at [1; 2; 1; 3]%nat)
                                   (toy_args 2 2 1) 0%nat false 0) = 1%Z)
    by (lazy; reflexivity).
  assert (B : best_step_of run_improving = 1%Z) by (lazy; reflexivity).
  rewrite E in B. cbn [best_step_of] in B.
  pose proof (@best_score_follows_strict_policy
                _ _ _ _ _ _ _ _ _ _ _ _ _ _ _ E) as H.
  cbv zeta in H. rewrite S0 in H.
  destruct H as [H1 [_ [_ [H2 _]]]].
  split; [exact H1|]. split; [exact H2 | exact B].
Defined.

(** In a run of the small world whose score never improves, the record
    names step 0 and nothing was ever written to [model.pt]. *)
Lemma best_metrics_step_without_checkpoint :
  finished run_default = true
  /\ saves (trace_of run_default) = []
  /\ best_metrics_json run_default
     = Some [("step"%string, VInt 0%Z); ("stsb"%string, VScore 1%Z)]
  /\ ~ best_metrics_names_last_save run_default.
Proof.
  split; [lazy; reflexivity|]. split; [lazy; reflexivity|].
  split; [lazy; reflexivity|].
  unfold best_metrics_names_last_save. lazy.
  intros [e [p H]]. discriminate H.
Qed.

(** C10. If no evaluation during training returns a score strictly
    greater than the score of step 0, [model.pt] is never written during
    the run, and the best-metrics record holds step 0 and the score of
    step 0. *)
Theorem no_improvement_means_no_checkpoint :
  forall (char : Type) (isspace : char -> bool)
         (score : Type) (score_lt : score -> score -> bool) (P : Type)
         (model_at : P -> bool -> nat -> option Z -> SimCSEModel (list (line char)))
         (optimizer_step : R -> Z -> P -> nat -> list (line char) -> P)
         (sts_dev : (list (line char) -> option matrix) -> score)
         (shuffle : Z -> list (line char) -> list (line char))
         (cosine : vec -> vec -> R)
         (cfg : Args) (file_lines : list (line char)) (p0 : P)
         (st : state score P) (r : option exn),
    main isspace score_lt model_at optimizer_step sts_dev shuffle cosine
         cfg file_lines p0 = Ran st r ->
    let s0 := sts_dev (encode model_at cfg p0 false 0) in
    Forall (fun ev => score_lt s0 (snd ev) = false)
           (tl (evaluations (trace st))) ->
    saves (trace st) = []
    /\ best_step st = 0%Z
    /\ best_stsb st = s0
    /\ best_metrics_json (Ran st r)
       = match r with
         | None => Some [("step"%string, VInt 0%Z); ("stsb"%string, VScore s0)]
         | Some _ => None
         end.
Proof.
  intros char isspace score score_lt P model_at optimizer_step sts_dev
         shuffle cosine cfg file_lines p0 st r Hrun s0 Hno.
  destruct (run_follows_policy _ _ _ _ _ _ _ _ _ _ Hrun) as [later [He Hp]].
  fold s0 in He, Hp. rewrite He in Hno. simpl in Hno.
  destruct (policy_run_no_better score_lt s0 Hno) as [H1 H2].
  rewrite Hp in H1, H2. simpl in H1, H2.
  injection H1 as Hb Hs.
  assert (Hsv : saves (trace st) = [])
    by (destruct (saves (trace st)); [reflexivity | discriminate]).
  repeat split; try assumption.
  destruct r; simpl; [reflexivity|]. now rewrite Hb, Hs.
Qed.

Lemma no_improvement_means_no_checkpoint_witness :
  finished run_flat = true
  /\ length (evaluations (trace_of run_flat)) = 5%nat
  /\ Forall (fun ev => Z.ltb 1 (snd ev) = false)
            (tl (evaluations (trace_of run_flat)))
  /\ exists st,
       run_flat = Ran st None
       /\ saves (trace st) = []
       /\ best_step st = 0%Z
       /\ best_stsb st = 1%Z.
Proof.
  assert (F : finished run_flat = true) by (lazy; reflexivity).
  assert (Hno : Forall (fun ev : Z * Z * Z => Z.ltb 1 (snd ev) = false)
                  (tl (evaluations (trace_of run_flat)))).
  { lazy. repeat constructor. }
  split; [exact F|]. split; [lazy; reflexivity|]. split; [exact Hno|].
  destruct (ran_inv _ F) as [st E].
  exists st. split; [exact E|].
  assert (S0 : toy_sts_dev (encode (toy_model_at [1; 1; 1]%nat)
                                   (toy_args 2 2 1) 0%nat false 0) = 1%Z)
    by (lazy; reflexivity).
  rewrite E in Hno. cbn [trace_of] in Hno. rewrite <- S0 in Hno.
  pose proof (@no_improvement_means_no_checkpoint
                _ _ _ _ _ _ _ _ _ _ _ _ _ _ _ E Hno) as H.
  rewrite S0 in H.
  destruct H as [H1 [H2 [H3 _]]]. auto.
Defined.

(* ------------------------------------------------------------------ *)
(** ** Evaluation points *)
(* ------------------------------------------------------------------ *)


Lemma toy_file_retained : post_init py_isspace toy_file <> [].
Proof. discriminate. Qed.



(* ------------------------------------------------------------------ *)
(** ** Labels and batch shape *)
(* ------------------------------------------------------------------ *)

(** C9. The labels of the loss are [0 .. batch_size - 1] whatever the
    number of rows of the batch, so the loss of two embedding matrices of
    one batch is defined exactly when the batch has [batch_size] rows.  The
    loader yields only batches of [batch_size] samples, and with an encoder
    that returns one row per sample a step outside that precondition fails
    while no run of [main] ever ends in the shape error. *)
Theorem labels_from_batch_size_safe_by_drop_last :
  forall (char : Type) (isspace : char -> bool)
         (score : Type) (score_lt : score -> score -> bool) (P : Type)
         (model_at : P -> bool -> nat -> option Z -> SimCSEModel (list (line char)))
         (optimizer_step : R -> Z -> P -> nat -> list (line char) -> P)
         (sts_dev : (list (line char) -> option matrix) -> score)
         (shuffle : Z -> list (line char) -> list (line char))
         (cosine : vec -> vec -> R)
         (cfg : Args),
    (forall p tr k ml x,
      length (entries (backbone (model_at p tr k ml) x)) = length x) ->
    (forall (e1 e2 : matrix),
        length e2 = length e1 ->
        contrastive_loss cosine (batch_size cfg) (temperature cfg) e1 e2
        = match sim_matrix cosine (temperature cfg) e1 e2 with
          | Some sim => cross_entropy sim (arange (batch_size cfg))
          | None => None
          end
        /\ (contrastive_loss cosine (batch_size cfg) (temperature cfg) e1 e2
            <> None
            <-> length e1 = Z.to_nat (batch_size cfg)))
    /\ (forall data epoch,
           Forall (fun b => length b = Z.to_nat (batch_size cfg))
                  (epoch_batches shuffle cfg data epoch))
    /\ (forall e s b (st : state score P),
           length b <> Z.to_nat (batch_size cfg) ->
           forall loss st',
             train_step model_at optimizer_step cosine cfg e s b st
             <> inr (loss, st'))
    /\ (forall file_lines p0 st,
           main isspace score_lt model_at optimizer_step sts_dev shuffle cosine
                cfg file_lines p0 <> Ran st (Some LossShapeError)).
Proof.
  intros char isspace score score_lt P model_at optimizer_step sts_dev
         shuffle cosine cfg Hrows.
  split; [|split; [|split]].
  - intros e1 e2 Hlen. split; [reflexivity|].
    now apply contrastive_loss_defined.
  - intros data epoch. apply batches_all_full.
  - intros e s b st Hne loss st' Ht.
    destruct (@train_step_shape char score P model_at optimizer_step cosine
                cfg e s b st Hrows) as [_ [H _]].
    apply Hne. eapply H. exact Ht.
  - intros file_lines p0 st. now apply main_no_shape_error.
Qed.

Lemma labels_from_batch_size_safe_by_drop_last_witness :
  Forall (fun b => length b = 2%nat)
         (epoch_batches toy_shuffle (toy_args 2 1 250)
                        (post_init py_isspace toy_file) 0)
  /\ (forall st, run_default <> Ran st (Some LossShapeError)).
Proof.
  destruct (@labels_from_batch_size_safe_by_drop_last
              ascii py_isspace Z Z.ltb nat (toy_model_at [])
              toy_optimizer_step toy_sts_dev toy_shuffle toy_cosine
              (toy_args 2 1 250) (toy_backbone_rows []))
    as [_ [H2 [_ H4]]].
  split.
  - apply H2.
  - intros st. apply H4.
Defined.

(* ------------------------------------------------------------------ *)
(** ** Batch size 1 *)
(* ------------------------------------------------------------------ *)

Lemma single_class_loss_zero (cosine : vec -> vec -> R) (tau : R) (u v : vec) :
  contrastive_loss cosine 1 tau [u] [v] = Some 0%R.
Proof.
  rewrite contrastive_loss_spec by (simpl; lia).
  unfold spec_loss, spec_cross_entropy, softmax_at, spec_row. simpl.
  f_equal.
  set (x := spec_entry cosine tau [u] [v] 0 0).
  pose proof (exp_pos x) as Hx.
  replace (exp x / (exp x + 0))%R with 1%R by (field; lra).
  rewrite ln_1. lra.
Qed.

(** With batch size 1 the run is not refused: it trains. *)
Lemma batch_size_one_is_executed :
  (batch_size (toy_args 1 1 250) < 2)%Z
  /\ finished run_batch_one = true
  /\ In (OptimizerStep 0 1) (trace_of run_batch_one)
  /\ length (logs_of run_batch_one) = 2%nat
  /\ ~ (exists e, run_batch_one = Refused e).
Proof.
  assert (F : finished run_batch_one = true) by (lazy; reflexivity).
  split; [reflexivity|]. split; [exact F|].
  split; [lazy; auto 10|]. split; [lazy; reflexivity|].
  intros [e H]. rewrite H in F. discriminate F.
Qed.

(** C3 (as amended). The script has no validation of its own; only the
    data loader's constructor refuses a batch size, and only one below 1,
    before any evaluation or training.  A batch size of 1 passes: the run
    goes on like any other, and the loss of each of its steps is the
    cross-entropy of a single-class row, which is 0. *)
Theorem only_batch_size_below_one_is_refused :
  forall (char : Type) (isspace : char -> bool)
         (score : Type) (score_lt : score -> score -> bool) (P : Type)
         (model_at : P -> bool -> nat -> option Z -> SimCSEModel (list (line char)))
         (optimizer_step : R -> Z -> P -> nat -> list (line char) -> P)
         (sts_dev : (list (line char) -> option matrix) -> score)
         (shuffle : Z -> list (line char) -> list (line char))
         (cosine : vec -> vec -> R)
         (cfg : Args) (file_lines : list (line char)) (p0 : P),
    let o := main isspace score_lt model_at optimizer_step sts_dev shuffle
                  cosine cfg file_lines p0 in
    ((batch_size cfg <= 0)%Z -> o = Refused LoaderValueError)
    /\ ((1 <= batch_size cfg)%Z -> post_init isspace file_lines <> [] ->
        exists st r, o = Ran st r)
    /\ (batch_size cfg = 1%Z ->
        forall u v : vec,
          contrastive_loss cosine (batch_size cfg) (temperature cfg) [u] [v]
          = Some 0%R).
Proof.
  intros char isspace score score_lt P model_at optimizer_step sts_dev
         shuffle cosine cfg file_lines p0 o.
  split; [|split].
  - intros HB. unfold o, main.
    destruct (Z.leb_spec (batch_size cfg) 0); [reflexivity | lia].
  - intros HB Hdata. unfold o, main.
    destruct (Z.leb_spec (batch_size cfg) 0); [lia|].
    destruct (Nat.eqb_spec (length (post_init isspace file_lines)) 0) as [E|_].
    { destruct (post_init isspace file_lines); [congruence | discriminate]. }
    cbn [orb]. destruct (for_each _ _ _) as [st r]. eauto.
  - intros HB u v. rewrite HB. apply single_class_loss_zero.
Qed.

Lemma only_batch_size_below_one_is_refused_witness :
  toy_main [] (toy_args 0 1 250) toy_file = Refused LoaderValueError
  /\ (exists st r, run_batch_one = Ran st r)
  /\ contrastive_loss toy_cosine 1 (1 / 20) [[0%R]] [[0%R]] = Some 0%R.
Proof.
  split; [|split].
  - apply (@only_batch_size_below_one_is_refused
             ascii py_isspace Z Z.ltb nat (toy_model_at [])
             toy_optimizer_step toy_sts_dev toy_shuffle toy_cosine
             (toy_args 0 1 250) toy_file 0%nat).
    discriminate.
  - apply (@only_batch_size_below_one_is_refused
             ascii py_isspace Z Z.ltb nat (toy_model_at [])
             toy_optimizer_step toy_sts_dev toy_shuffle toy_cosine
             (toy_args 1 1 250) toy_file 0%nat).
    + discriminate.
    + exact toy_file_retained.
  - apply (@only_batch_size_below_one_is_refused
             ascii py_isspace Z Z.ltb nat (toy_model_at [])
             toy_optimizer_step toy_sts_dev toy_shuffle toy_cosine
             (toy_args 1 1 250) toy_file 0%nat).
    reflexivity.
Defined.

(* ------------------------------------------------------------------ *)
(** ** The log table *)
(* ------------------------------------------------------------------ *)

(** C8 (the code departs from it). One epoch of two steps in the small
    world: the run logs two records, and the table written to [logs.csv]
    has five columns, because the record of step 0 stores the score under
    "STSB" and the records of the loop store it under "stsb"; each row has
    one of the two cells empty.  The loss cell is empty in the row of
    step 0. *)
Theorem log_table_has_two_score_columns :
  finished run_default = true
  /\ option_map fst (logs_csv run_default)
     = Some ["epoch"; "step"; "loss"; "STSB"; "stsb"]%string
  /\ map (fun row => (cell row "epoch", cell row "step",
                      cell row "STSB", cell row "stsb"))
         (logs_of run_default)
     = [(Some (VInt 0%Z), Some (VInt 0%Z), Some (VScore 1%Z), None);
        (Some (VInt 0%Z), Some (VInt 2%Z), None, Some (VScore 1%Z))]
  /\ map (fun row => match cell row "loss" with None => true | Some _ => false end)
         (logs_of run_default)
     = [true; false].
Proof.
  split; [lazy; reflexivity|]. split; [lazy; reflexivity|].
  split; lazy; reflexivity.
Qed.

(* ------------------------------------------------------------------ *)
(** ** More about the dataset *)
(* ------------------------------------------------------------------ *)

Section DatasetMore.

Variable char : Type.
Variable isspace : char -> bool.

Lemma lstrip_nil_iff (s : line char) :
  lstrip isspace s = [] <-> forallb isspace s = true.
Proof.
  induction s as [|c r IH]; simpl.
  - tauto.
  - destruct (isspace c); simpl; [exact IH|]. split; discriminate.
Qed.

Lemma rstrip_nil_iff (s : line char) :
  rstrip isspace s = [] <-> forallb isspace s = true.
Proof.
  induction s as [|c r IH]; simpl.
  - tauto.
  - destruct (rstrip isspace r) as [|d r'] eqn:E.
    + assert (Hr : forallb isspace r = true) by now apply IH.
      rewrite Hr, andb_true_r.
      destruct (isspace c); split; congruence.
    + assert (Hr : forallb isspace r <> true).
      { intros H. apply IH in H. discriminate. }
      apply not_true_is_false in Hr. rewrite Hr, andb_false_r.
      split; discriminate.
Qed.

Lemma lstrip_all_space (s : line char) :
  forallb isspace (lstrip isspace s) = true -> lstrip isspace s = [].
Proof.
  induction s as [|c r IH]; simpl; [reflexivity|].
  destruct (isspace c) eqn:E; [exact IH|].
  simpl. rewrite E. discriminate.
Qed.

Lemma strip_nil_iff (s : line char) :
  strip isspace s = [] <-> forallb isspace s = true.
Proof.
  unfold strip. rewrite rstrip_nil_iff. split.
  - intros H. apply lstrip_nil_iff. now apply lstrip_all_space.
  - intros H. apply lstrip_nil_iff in H. now rewrite H.
Qed.

Lemma rstrip_cons (c : char) (r : line char) :
  rstrip isspace (c :: r)
  = match rstrip isspace r with
    | [] => if isspace c then [] else [c]
    | d :: r' => c :: d :: r'
    end.
Proof. reflexivity. Qed.

Lemma rstrip_idem (s : line char) :
  rstrip isspace (rstrip isspace s) = rstrip isspace s.
Proof.
  induction s as [|c r IH]; [reflexivity|].
  rewrite rstrip_cons.
  destruct (rstrip isspace r) as [|d r'] eqn:E.
  - destruct (isspace c) eqn:Ec; [reflexivity|].
    rewrite rstrip_cons. simpl. now rewrite Ec.
  - rewrite rstrip_cons, IH. reflexivity.
Qed.

Lemma lstrip_fixed (s : line char) :
  match s with [] => True | c :: _ => isspace c = false end ->
  lstrip isspace s = s.
Proof.
  destruct s as [|c r]; simpl; [reflexivity|]. now intros ->.
Qed.

Lemma strip_idem (s : line char) :
  strip isspace (strip isspace s) = strip isspace s.
Proof.
  unfold strip.
  rewrite (lstrip_fixed (rstrip isspace (lstrip isspace s))).
  - apply rstrip_idem.
  - pose proof (rstrip_head isspace (lstrip isspace s)) as Hh.
    pose proof (lstrip_head isspace s) as Hl.
    destruct (rstrip isspace (lstrip isspace s)) as [|c t]; [exact I|].
    destruct Hh as [r Hr]. now rewrite Hr in Hl.
Qed.

Lemma retained_app (a b : list (line char)) :
  retained_lines isspace (a ++ b)
  = retained_lines isspace a ++ retained_lines isspace b.
Proof. unfold retained_lines. now rewrite map_app, filter_app. Qed.

Lemma post_init_retained (ls : list (line char)) :
  post_init isspace ls = retained_lines isspace ls.
Proof. unfold post_init. now rewrite post_init_fold. Qed.

Lemma retained_idem (ls : list (line char)) :
  retained_lines isspace (retained_lines isspace ls) = retained_lines isspace ls.
Proof.
  unfold retained_lines.
  induction ls as [|l ls IH]; simpl; [reflexivity|].
  destruct (truthy (strip isspace l)) eqn:E; simpl; [|exact IH].
  rewrite strip_idem, E, IH. reflexivity.
Qed.

Lemma truthy_strip (l : line char) :
  truthy (strip isspace l) = existsb (fun c => negb (isspace c)) l.
Proof.
  destruct (strip isspace l) as [|c t] eqn:E; simpl.
  - apply strip_nil_iff in E. symmetry.
    apply not_true_is_false. intros H. apply existsb_exists in H.
    destruct H as [c [Hc Hn]]. rewrite forallb_forall in E.
    rewrite (E c Hc) in Hn. discriminate.
  - symmetry. destruct (existsb (fun c => negb (isspace c)) l) eqn:Ex;
      [reflexivity|].
    assert (H : forallb isspace l = true).
    { apply forallb_forall. intros d Hd.
      destruct (isspace d) eqn:Ed; [reflexivity|].
      assert (existsb (fun c => negb (isspace c)) l = true).
      { apply existsb_exists. exists d. now rewrite Ed. }
      congruence. }
    apply strip_nil_iff in H. congruence.
Qed.

End DatasetMore.

(** X1. A line of the file is kept exactly when it has a character that
    is not whitespace: the stripped line is empty exactly for the lines
    made of whitespace only (the empty line among them), and the dataset
    has as many samples as the file has lines with a non-whitespace
    character. *)
Theorem line_dropped_iff_only_whitespace :
  forall (char : Type) (isspace : char -> bool) (file_lines : list (line char)),
    (forall l, strip isspace l = [] <-> forallb isspace l = true)
    /\ post_init isspace file_lines
       = map (strip isspace)
             (filter (existsb (fun c => negb (isspace c))) file_lines)
    /\ dataset_len (post_init isspace file_lines)
       = Z.of_nat (length (filter (existsb (fun c => negb (isspace c)))
                                  file_lines)).
Proof.
  intros char isspace file_lines.
  assert (E : post_init isspace file_lines
              = map (strip isspace)
                    (filter (existsb (fun c => negb (isspace c))) file_lines)).
  { rewrite post_init_retained. unfold retained_lines.
    induction file_lines as [|l ls IH]; simpl; [reflexivity|].
    rewrite truthy_strip.
    destruct (existsb _ l); simpl; now rewrite IH. }
  split; [apply strip_nil_iff|]. split; [exact E|].
  unfold dataset_len. now rewrite E, length_map.
Qed.

(** X2. Building the dataset is compositional and idempotent: the
    dataset of two files one after the other is the concatenation of
    their datasets, and a file made of the samples of a dataset gives that
    dataset back (stripping a stripped line changes nothing). *)
Theorem dataset_of_concatenation_and_of_dataset :
  forall (char : Type) (isspace : char -> bool) (f1 f2 : list (line char)),
    post_init isspace (f1 ++ f2) = post_init isspace f1 ++ post_init isspace f2
    /\ post_init isspace (post_init isspace f1) = post_init isspace f1
    /\ (forall l, strip isspace (strip isspace l) = strip isspace l).
Proof.
  intros char isspace f1 f2. rewrite !post_init_retained.
  split; [apply retained_app|]. split; [apply retained_idem|].
  apply strip_idem.
Qed.

(** X3. Indexing the dataset follows Python's list indexing: an index
    is accepted exactly when it lies in [-len, len), a non-negative index
    [k] returns the k-th sample, and the negative index [k - len] returns
    the same sample. *)
Theorem getitem_accepts_exactly_python_indices :
  forall (char : Type) (data : list (line char)) (index : Z),
    let n := Z.of_nat (length data) in
    (getitem data index <> None <-> (- n <= index < n)%Z)
    /\ ((0 <= index < n)%Z ->
        getitem data index = nth_error data (Z.to_nat index)
        /\ getitem data (index - n) = getitem data index).
Proof.
  intros char data index n. split.
  - unfold getitem. fold n.
    destruct (Z.ltb_spec index 0) as [Hneg|Hpos].
    + destruct (Z.leb_spec 0 (index + n)); destruct (Z.ltb_spec (index + n) n);
        cbn [andb]; split; try lia; try congruence.
      intros _. apply nth_error_Some. lia.
    + destruct (Z.leb_spec 0 index); destruct (Z.ltb_spec index n);
        cbn [andb]; split; try lia; try congruence.
      intros _. apply nth_error_Some. lia.
  - intros Hi. unfold getitem. fold n.
    destruct (Z.ltb_spec index 0); [lia|].
    destruct (Z.leb_spec 0 index); [|lia].
    destruct (Z.ltb_spec index n); [|lia]. cbn [andb].
    split; [reflexivity|].
    destruct (Z.ltb_spec (index - n) 0); [|lia].
    replace (index - n + n)%Z with index by lia.
    destruct (Z.leb_spec 0 index); [|lia].
    destruct (Z.ltb_spec index n); [|lia]. reflexivity.
Qed.

Lemma getitem_accepts_exactly_python_indices_witness :
  getitem (post_init py_isspace toy_file) 1 = Some (text "a dog")
  /\ getitem (post_init py_isspace toy_file) (1 - 4) = Some (text "a dog").
Proof.
  destruct (@getitem_accepts_exactly_python_indices
              ascii (post_init py_isspace toy_file) 1%Z) as [_ H].
  destruct H as [H1 H2];
    [split; [apply Z.leb_le | apply Z.ltb_lt]; reflexivity|].
  split; [rewrite H1; reflexivity|].
  transitivity (getitem (post_init py_isspace toy_file) 1);
    [exact H2 | rewrite H1; reflexivity].
Defined.

(* ------------------------------------------------------------------ *)
(** ** More about the encoder wrapper *)
(* ------------------------------------------------------------------ *)

Lemma mapM_none_iff {A B : Type} (f : A -> option B) (l : list A) :
  mapM f l = None <-> Exists (fun x => f x = None) l.
Proof.
  induction l as [|x r IH]; simpl.
  - split; [discriminate | intros H; inversion H].
  - destruct (f x) as [y|] eqn:E.
    + destruct (mapM f r) as [ys|].
      * split; [discriminate|]. intros H.
        inversion H as [? ? Hx|? ? Hr]; subst; [congruence|].
        apply IH in Hr. discriminate.
      * split; [|reflexivity]. intros _. right. now apply IH.
    + split; [|reflexivity]. intros _. now left.
Qed.

Lemma linear_apply_none (l : Linear) (v : vec) :
  linear_apply l v = None <-> length v <> in_features l.
Proof.
  unfold linear_apply.
  destruct (Nat.eqb_spec (length v) (in_features l)); split;
    congruence || discriminate.
Qed.

(** X4. On hidden states that fill their shape (batch, seq_len, width),
    the raw mode of the wrapper fails exactly when the sequence axis is
    empty, and the projected mode exactly when the sequence axis is empty
    or the width is not the one the dense layer takes, an empty batch
    included in both cases.  Otherwise the projected mode is the head
    applied to the result of the raw mode: row for row, component [j] is
    the Tanh of the dot product of the raw row with row [j] of the weight
    matrix, plus component [j] of the bias. *)
Theorem projected_mode_is_head_of_raw_mode :
  forall (input : Type) (m : SimCSEModel input) (x : input),
    hidden_states_wf (backbone m x) ->
    (forward m x false = None <-> seq_len (backbone m x) = 0)
    /\ (forward m x true = None
        <-> seq_len (backbone m x) = 0
            \/ width (backbone m x) <> in_features (dense m))
    /\ (forall raw,
          forward m x false = Some raw ->
          width (backbone m x) = in_features (dense m) ->
          forward m x true
          = Some (map (fun v =>
                         map (fun wb => tanh (dot v (fst wb) + snd wb)%R)
                             (combine (weight (dense m)) (bias (dense m))))
                      raw)).
Proof.
  intros input m x Hshape. split; [|split].
  - now apply forward_raw_none_iff.
  - now apply forward_projected_none_iff.
  - intros raw Hraw Hwidth.
    rewrite (@forward_projects_raw input m x Hshape raw Hraw Hwidth).
    f_equal. apply map_ext. intros v. unfold activation, affine.
    now rewrite map_map.
Qed.

(** An empty batch without positions, of shape (0, 0, 2), fails in both
    modes; one sample of two characters is mapped to the Tanh of
    [1*2 + 2*1 + 5, 3*2 + 4*1 + 6]. *)
Lemma projected_mode_is_head_of_raw_mode_witness :
  forward (head_model 0) [] false = None
  /\ forward (head_model 0) [] true = None
  /\ forward (head_model 2) [text "ab"] true = Some [[tanh 9; tanh 16]].
Proof.
  destruct (@projected_mode_is_head_of_raw_mode
              (list (line ascii)) (head_model 0) []
              (head_model_shape 0 _))
    as [[_ H1] [[_ H2] _]].
  split; [now apply H1|]. split; [apply H2; now left|].
  destruct (@projected_mode_is_head_of_raw_mode
              (list (line ascii)) (head_model 2) [text "ab"]
              (head_model_shape 2 _))
    as [_ [_ H3]].
  rewrite (H3 [[2; 1]]%R).
  - unfold dot. simpl. repeat f_equal; lra.
  - unfold forward, cls_pool. simpl. repeat f_equal; lra.
  - reflexivity.
Defined.

(* ------------------------------------------------------------------ *)
(** ** More about the objective *)
(* ------------------------------------------------------------------ *)

Lemma rsum_nonneg (l : list R) :
  Forall (fun x => (0 <= x)%R) l -> (0 <= rsum l)%R.
Proof.
  induction 1 as [|x l Hx _ IH]; simpl; lra.
Qed.

Lemma rsum_le_const (l : list R) (c : R) :
  Forall (fun x => (x <= c)%R) l -> (rsum l <= INR (length l) * c)%R.
Proof.
  induction 1 as [|x l Hx _ IH].
  - simpl. lra.
  - cbn [rsum fold_right length]. rewrite S_INR. fold (rsum l). lra.
Qed.

Lemma exp_le_rsum_exp (row : vec) (k : nat) (x : R) :
  nth_error row k = Some x -> (exp x <= rsum (map exp row))%R.
Proof.
  revert k. induction row as [|y row IH]; intros k; destruct k; simpl;
    try discriminate.
  - intros [= ->].
    assert (0 <= rsum (map exp row))%R.
    { apply rsum_nonneg. apply Forall_forall. intros z Hz.
      apply in_map_iff in Hz. destruct Hz as [w [<- _]].
      left. apply exp_pos. }
    lra.
  - intros H. specialize (IH k H). pose proof (exp_pos y). lra.
Qed.

Lemma ln_le_compat (a b : R) : (0 < a)%R -> (a <= b)%R -> (ln a <= ln b)%R.
Proof.
  intros Ha [Hlt | ->]; [|lra]. left. now apply ln_increasing.
Qed.

Lemma nll_nonneg (row : vec) (k : nat) (l : R) :
  nll row k = Some l -> (0 <= l)%R.
Proof.
  unfold nll. destruct (nth_error row k) as [x|] eqn:E; [|discriminate].
  intros [= <-]. pose proof (exp_le_rsum_exp row k E) as H.
  pose proof (ln_le_compat (exp_pos x) H) as H'.
  rewrite ln_exp in H'. lra.
Qed.

Lemma mapM_Forall_out {A B : Type} (f : A -> option B) (Q : B -> Prop)
  (l : list A) (out : list B) :
  (forall x y, In x l -> f x = Some y -> Q y) ->
  mapM f l = Some out -> Forall Q out.
Proof.
  revert out. induction l as [|x r IH]; intros out Hf; simpl.
  - intros [= <-]. constructor.
  - destruct (f x) as [y|] eqn:E; [|discriminate].
    destruct (mapM f r) as [ys|] eqn:Er; [|discriminate].
    intros [= <-]. constructor.
    + apply (Hf x y); [now left | exact E].
    + apply IH; [|reflexivity]. intros a b Ha. apply Hf. now right.
Qed.

Lemma cross_entropy_nonneg (input : matrix) (target : list nat) (l : R) :
  cross_entropy input target = Some l -> (0 <= l)%R.
Proof.
  unfold cross_entropy.
  destruct (length input =? length target); [|discriminate].
  destruct (mapM _ _) as [losses|] eqn:E; [|discriminate].
  intros [= <-].
  assert (Hs : (0 <= rsum losses)%R).
  { apply rsum_nonneg. eapply mapM_Forall_out; [|exact E].
    intros [row k] y _ Hy. eapply nll_nonneg. exact Hy. }
  destruct (length input) as [|n].
  - simpl. unfold Rdiv. rewrite Rinv_0. lra.
  - apply Rmult_le_pos; [exact Hs|]. left. apply Rinv_0_lt_compat.
    apply lt_0_INR. lia.
Qed.

(** X5. Whenever the loss of a step is defined it is not negative, and
    so is every loss a training step hands to the optimizer and the log. *)
Theorem loss_is_never_negative :
  forall (cosine : vec -> vec -> R) (bs : Z) (tau : R) (e1 e2 : matrix) (l : R),
    contrastive_loss cosine bs tau e1 e2 = Some l -> (0 <= l)%R.
Proof.
  intros cosine bs tau e1 e2 l. unfold contrastive_loss.
  destruct (sim_matrix cosine tau e1 e2); [|discriminate].
  apply cross_entropy_nonneg.
Qed.

Lemma loss_is_mean_cross_entropy_witness_value :
  exists l, contrastive_loss toy_cosine 2 (1 / 20)
              [[1; 0]; [0; 1]]%R [[1; 0]; [0; 1]]%R = Some l.
Proof.
  eexists. apply contrastive_loss_spec; simpl; lia.
Qed.

Lemma loss_is_never_negative_witness :
  exists l, contrastive_loss toy_cosine 2 (1 / 20)
              [[1; 0]; [0; 1]]%R [[1; 0]; [0; 1]]%R = Some l
            /\ (0 <= l)%R.
Proof.
  destruct (@loss_is_mean_cross_entropy_witness_value) as [l Hl].
  exists l. split; [exact Hl|].
  exact (@loss_is_never_negative toy_cosine 2 (1 / 20)
           [[1; 0]; [0; 1]]%R [[1; 0]; [0; 1]]%R l Hl).
Defined.

Lemma exp_le_compat (a b : R) : (a <= b)%R -> (exp a <= exp b)%R.
Proof.
  intros [Hlt | ->]; [|lra]. left. now apply exp_increasing.
Qed.

(** One row of logits between [-M] and [M]: its loss is at most
    [ln n + 2 M], [n] the number of classes. *)
Lemma nll_upper (M : R) (row : vec) (k : nat) (l : R) :
  Forall (fun x => (- M <= x <= M)%R) row ->
  nll row k = Some l ->
  (l <= ln (INR (length row)) + 2 * M)%R.
Proof.
  intros Hrow. unfold nll.
  destruct (nth_error row k) as [x|] eqn:E; [|discriminate].
  intros [= <-].
  assert (Hx : (- M <= x <= M)%R).
  { rewrite Forall_forall in Hrow. apply Hrow.
    eapply nth_error_In. exact E. }
  assert (Hn : (0 < length row)%nat).
  { destruct row; [destruct k; discriminate | simpl; lia]. }
  assert (Hpos : (0 < rsum (map exp row))%R).
  { apply rsum_exp_pos. destruct row; [simpl in Hn; lia | discriminate]. }
  assert (Hsum : (rsum (map exp row) <= INR (length row) * exp M)%R).
  { rewrite <- (length_map exp row). apply rsum_le_const.
    apply Forall_forall. intros y Hy. apply in_map_iff in Hy.
    destruct Hy as [z [<- Hz]]. apply exp_le_compat.
    rewrite Forall_forall in Hrow. apply (Hrow z Hz). }
  pose proof (ln_le_compat Hpos Hsum) as Hln.
  rewrite ln_mult in Hln by (try apply exp_pos; apply lt_0_INR; exact Hn).
  rewrite ln_exp in Hln. lra.
Qed.

Lemma cross_entropy_upper (M : R) (n : nat) (input : matrix)
  (target : list nat) (l : R) :
  Forall (fun row => length row = n
                     /\ Forall (fun x => (- M <= x <= M)%R) row) input ->
  input <> [] ->
  cross_entropy input target = Some l ->
  (l <= ln (INR n) + 2 * M)%R.
Proof.
  intros Hin Hne. unfold cross_entropy.
  destruct (Nat.eqb_spec (length input) (length target)) as [Heq|];
    [|discriminate].
  destruct (mapM _ _) as [losses|] eqn:E; [|discriminate].
  intros [= <-].
  assert (Hlen : length losses = length input).
  { rewrite (mapM_length _ _ E), length_combine, <- Heq. apply Nat.min_id. }
  assert (Hall : Forall (fun y => (y <= ln (INR n) + 2 * M)%R) losses).
  { eapply mapM_Forall_out; [|exact E].
    intros [row k] y Hrk Hy. cbn [fst snd] in Hy.
    apply in_combine_l in Hrk. rewrite Forall_forall in Hin.
    destruct (Hin row Hrk) as [Hl Hb]. rewrite <- Hl.
    eapply nll_upper; eauto. }
  apply rsum_le_const in Hall. rewrite Hlen in Hall.
  assert (Hpos : (0 < INR (length input))%R).
  { apply lt_0_INR. destruct input; [congruence | simpl; lia]. }
  apply Rmult_le_reg_r with (INR (length input)); [exact Hpos|].
  unfold Rdiv. rewrite Rmult_assoc, Rinv_l, Rmult_1_r by lra. lra.
Qed.

(** X6. If the values of the kernel on the rows of a batch lie between
    [-c] and [c] (for the cosine in exact arithmetic [c = 1]; a rounded
    kernel needs a little more) and the temperature is positive, every
    entry of the similarity matrix lies between [-c/temperature] and
    [c/temperature], and the loss of the batch is at most
    [ln B + 2 c / temperature], [B] the number of rows of the second
    pass. *)
Theorem loss_is_bounded_by_batch_size_and_temperature :
  forall (cosine : vec -> vec -> R) (bs : Z) (tau c : R) (e1 e2 : matrix) (l : R),
    (forall i j, i < length e1 -> j < length e2 ->
                 (- c <= cosine (nth i e1 []) (nth j e2 []) <= c)%R) ->
    (0 < tau)%R ->
    e1 <> [] ->
    contrastive_loss cosine bs tau e1 e2 = Some l ->
    (forall sim, sim_matrix cosine tau e1 e2 = Some sim ->
       Forall (Forall (fun x => (- (c / tau) <= x <= c / tau)%R)) sim)
    /\ (l <= ln (INR (length e2)) + 2 * c / tau)%R.
Proof.
  intros cosine bs tau c e1 e2 l Hcos Htau Hne Hl.
  assert (Hrows : Forall (fun row => length row = length e2
                    /\ Forall (fun x => (- (c / tau) <= x <= c / tau)%R) row)
                    (map (spec_row cosine tau e1 e2) (seq 0 (length e1)))).
  { apply Forall_forall. intros row Hrow. apply in_map_iff in Hrow.
    destruct Hrow as [i [<- Hi]]. split; [apply spec_row_length|].
    apply Forall_forall. intros x Hx. unfold spec_row in Hx.
    apply in_map_iff in Hx. destruct Hx as [j [<- Hj]].
    apply in_seq in Hi. apply in_seq in Hj.
    unfold spec_entry.
    destruct (Hcos i j) as [Ha Hb]; [lia | lia |].
    assert (Hi' : (0 < / tau)%R) by now apply Rinv_0_lt_compat.
    unfold Rdiv. split.
    - replace (- (c * / tau))%R with ((- c) * / tau)%R by lra.
      apply Rmult_le_compat_r; lra.
    - apply Rmult_le_compat_r; lra. }
  split.
  - intros sim Hsim. rewrite sim_matrix_spec in Hsim. injection Hsim as <-.
    eapply Forall_impl; [|exact Hrows]. now intros row [_ H].
  - unfold contrastive_loss in Hl. rewrite sim_matrix_spec in Hl.
    replace (2 * c / tau)%R with (2 * (c / tau))%R by (unfold Rdiv; lra).
    eapply cross_entropy_upper; [exact Hrows | | exact Hl].
    destruct e1; [congruence | discriminate].
Qed.

(** Two orthogonal unit rows, compared by their dot product (which is
    their cosine): the kernel takes the values 1 and 0. *)
Lemma loss_is_bounded_by_batch_size_and_temperature_witness :
  dot [1; 0]%R [1; 0]%R = 1%R
  /\ dot [1; 0]%R [0; 1]%R = 0%R
  /\ exists l, contrastive_loss dot 2 (1 / 20)
                 [[1; 0]; [0; 1]]%R [[1; 0]; [0; 1]]%R = Some l
               /\ (l <= ln (INR 2) + 2 * 1 / (1 / 20))%R.
Proof.
  split; [unfold dot; simpl; lra|]. split; [unfold dot; simpl; lra|].
  assert (Hl : exists l, contrastive_loss dot 2 (1 / 20)
                           [[1; 0]; [0; 1]]%R [[1; 0]; [0; 1]]%R = Some l)
    by (eexists; apply contrastive_loss_spec; simpl; lia).
  destruct Hl as [l Hl].
  exists l. split; [exact Hl|].
  refine (proj2 (@loss_is_bounded_by_batch_size_and_temperature dot 2
                   (1 / 20) 1 [[1; 0]; [0; 1]]%R [[1; 0]; [0; 1]]%R l
                   _ _ _ Hl)).
  - intros [|[|i]] [|[|j]] Hi Hj; simpl in Hi, Hj; try lia;
      unfold dot; simpl; lra.
  - lra.
  - discriminate.
Defined.

(* ------------------------------------------------------------------ *)
(** ** More about the loader and the evaluation batches *)
(* ------------------------------------------------------------------ *)

(** X7. In one epoch no sample is presented more often than the dataset
    holds it: the yielded batches together with [N mod B] left-over samples
    are a rearrangement of the dataset.  In particular every yielded sample
    is a sample of the dataset, and a dataset without repeated lines yields
    no line twice in an epoch. *)
Theorem epoch_batches_rearrange_dataset :
  forall (char : Type) (shuffle : Z -> list (line char) -> list (line char))
         (cfg : Args) (data : list (line char)) (epoch : Z),
    (0 < batch_size cfg)%Z ->
    Permutation (shuffle epoch data) data ->
    let batches := epoch_batches shuffle cfg data epoch in
    (exists left_over,
        Permutation (concat batches ++ left_over) data
        /\ length left_over
           = (length data mod Z.to_nat (batch_size cfg))%nat)
    /\ (forall s, In s (concat batches) -> In s data)
    /\ (NoDup data -> NoDup (concat batches)).
Proof.
  intros char shuffle cfg data epoch HB Hperm batches.
  set (B := Z.to_nat (batch_size cfg)).
  assert (HBn : (0 < B)%nat) by (unfold B; lia).
  destruct (@batch_sampler_iter_spec _ (length (shuffle epoch data)) B
              (shuffle epoch data) HBn (Nat.le_refl _)) as [_ [_ H3]].
  fold (batch_sampler B (shuffle epoch data)) in H3.
  change (batch_sampler B (shuffle epoch data)) with batches in H3.
  pose proof (Permutation_length Hperm) as HN.
  set (m := (B * (length (shuffle epoch data) / B))%nat) in *.
  assert (Hsplit : Permutation (concat batches ++ skipn m (shuffle epoch data))
                     data).
  { rewrite H3, firstn_skipn. exact Hperm. }
  split; [|split].
  - exists (skipn m (shuffle epoch data)). split; [exact Hsplit|].
    rewrite length_skipn. unfold m. rewrite HN.
    pose proof (Nat.div_mod_eq (length data) B). lia.
  - intros s Hs. apply (Permutation_in s Hsplit).
    apply in_or_app. now left.
  - intros Hnd. apply Permutation_sym in Hsplit.
    apply (Permutation_NoDup Hsplit) in Hnd.
    now apply NoDup_app_remove_r in Hnd.
Qed.

Lemma epoch_batches_rearrange_dataset_witness :
  let batches := epoch_batches toy_shuffle (toy_args 2 1 250) toy_file 0 in
  (forall s, In s (concat batches) -> In s toy_file)
  /\ exists left_over,
       Permutation (concat batches ++ left_over) toy_file
       /\ length left_over = 1%nat.
Proof.
  destruct (@epoch_batches_rearrange_dataset ascii toy_shuffle
              (toy_args 2 1 250) toy_file 0%Z)
    as [H1 [H2 _]].
  - reflexivity.
  - apply toy_shuffle_perm.
  - intros batches. split; [exact H2 | exact H1].
Defined.

Section ChunkedFacts.

Variable A : Type.

Lemma ceil_step (n len : nat) :
  (0 < n)%nat -> (0 < len)%nat ->
  ((len + n - 1) / n = S ((len - n + n - 1) / n))%nat.
Proof.
  intros Hn Hl. destruct (Nat.le_gt_cases len n) as [Hle|Hgt].
  - replace (len - n + n - 1)%nat with (n - 1)%nat by lia.
    rewrite (Nat.div_small (n - 1) n) by lia.
    replace (len + n - 1)%nat with ((len - 1) + 1 * n)%nat by lia.
    rewrite Nat.div_add by lia.
    rewrite (Nat.div_small (len - 1) n) by lia. reflexivity.
  - replace (len + n - 1)%nat with ((len - n + n - 1) + 1 * n)%nat by lia.
    rewrite Nat.div_add by lia. lia.
Qed.

Lemma chunked_iter_cons (fuel n : nat) (x : A) (r : list A) :
  (0 < n)%nat ->
  chunked_iter (S fuel) n (x :: r)
  = firstn n (x :: r) :: chunked_iter fuel n (skipn n (x :: r)).
Proof. intros Hn. destruct n as [|n]; [lia | reflexivity]. Qed.

Lemma chunked_iter_spec (fuel n : nat) (l : list A) :
  (0 < n)%nat -> (length l <= fuel)%nat ->
  let cs := chunked_iter fuel n l in
  concat cs = l
  /\ Forall (fun c => (0 < length c <= n)%nat) cs
  /\ length cs = ((length l + n - 1) / n)%nat.
Proof.
  intros Hn. revert l. induction fuel as [|fuel IH]; intros l Hf.
  - destruct l; simpl in Hf; [|lia]. simpl.
    repeat split; [constructor|].
    symmetry. apply Nat.div_small. lia.
  - destruct l as [|x r].
    + cbn [chunked_iter]. rewrite firstn_nil. simpl.
      repeat split; [constructor|].
      symmetry. apply Nat.div_small. lia.
    + rewrite chunked_iter_cons by exact Hn.
      assert (Hlen : length (skipn n (x :: r)) = (length (x :: r) - n)%nat)
        by apply length_skipn.
      assert (Hpos : (0 < length (x :: r))%nat) by (simpl; lia).
      destruct (IH (skipn n (x :: r))) as [H1 [H2 H3]].
      { rewrite Hlen. cbn [length] in *. lia. }
      split; [|split].
      * cbn [concat]. rewrite H1. apply firstn_skipn.
      * constructor; [|exact H2].
        rewrite length_firstn. lia.
      * change (length (firstn n (x :: r)
                        :: chunked_iter fuel n (skipn n (x :: r))))
          with (S (length (chunked_iter fuel n (skipn n (x :: r))))).
        rewrite H3, Hlen. symmetry. now apply ceil_step.
Qed.

Lemma chunked_nil_iff (l : list A) (n : nat) :
  (0 < n)%nat -> chunked l n = [] <-> l = [].
Proof.
  intros Hn. unfold chunked. destruct l as [|x r].
  - split; reflexivity.
  - cbn [length]. rewrite chunked_iter_cons by exact Hn.
    split; discriminate.
Qed.

End ChunkedFacts.

(** X8. The evaluation closure cuts the texts into consecutive pieces of
    at most [8 * batch_size] texts: no piece is empty, the pieces in order
    make up the texts again, and there are [ceil(len / (8 * batch_size))]
    of them. *)
Theorem encode_pieces_cover_the_texts :
  forall (A : Type) (cfg : Args) (texts : list A),
    (0 < batch_size cfg)%Z ->
    let n := Z.to_nat (batch_size cfg * 8) in
    let pieces := chunked texts n in
    concat pieces = texts
    /\ Forall (fun c => (0 < length c <= n)%nat) pieces
    /\ length pieces = ((length texts + n - 1) / n)%nat.
Proof.
  intros A cfg texts HB n pieces.
  apply chunked_iter_spec; [unfold n; lia | lia].
Qed.

Lemma encode_pieces_cover_the_texts_witness :
  chunked [1; 2; 3; 4; 5; 6; 7; 8; 9; 10]%nat
          (Z.to_nat (batch_size (toy_args 1 1 250) * 8))
  = [[1; 2; 3; 4; 5; 6; 7; 8]; [9; 10]]%nat
  /\ concat (chunked [1; 2; 3; 4; 5; 6; 7; 8; 9; 10]%nat
                     (Z.to_nat (batch_size (toy_args 1 1 250) * 8)))
     = [1; 2; 3; 4; 5; 6; 7; 8; 9; 10]%nat.
Proof.
  split; [reflexivity|].
  apply (@encode_pieces_cover_the_texts nat (toy_args 1 1 250)
           [1; 2; 3; 4; 5; 6; 7; 8; 9; 10]%nat).
  reflexivity.
Defined.

Lemma forward_raw_defined {X : Type} (m : SimCSEModel (list X)) (x : list X) :
  encoder_ok m ->
  exists raw, forward m x false = Some raw /\ length raw = length x.
Proof.
  intros [_ Hb]. destruct (Hb x) as [Hlen [Hpos [_ Hshape]]].
  destruct (@cls_pool_first _ _ Hpos Hshape) as [Hpool _].
  exists (map (fun positions => nth 0 positions []) (entries (backbone m x))).
  unfold forward. rewrite Hpool. split; [reflexivity|].
  apply cls_pool_length in Hpool. congruence.
Qed.

Lemma mapM_concat_length {A B : Type} (f : list A -> option (list B))
  (l : list (list A)) (out : list (list B)) :
  (forall x y, f x = Some y -> length y = length x) ->
  mapM f l = Some out ->
  length (concat out) = length (concat l).
Proof.
  intros Hf. revert out. induction l as [|x r IH]; intros out; simpl.
  - now intros [= <-].
  - destruct (f x) as [y|] eqn:E; [|discriminate].
    destruct (mapM f r) as [ys|]; [|discriminate].
    intros [= <-]. simpl. rewrite !length_app, (Hf x y E), (IH ys eq_refl).
    reflexivity.
Qed.

Lemma mapM_total {A B : Type} (f : A -> option B) (l : list A) :
  (forall x, exists y, f x = Some y) -> exists out, mapM f l = Some out.
Proof.
  intros Hf. induction l as [|x r [out IH]]; simpl.
  - now exists [].
  - destruct (Hf x) as [y ->]. rewrite IH. now exists (y :: out).
Qed.

(** X9. The embedding function handed to the scorer returns one raw-mode
    embedding per text, in order of the pieces, whenever it is given at
    least one text; given no text at all it fails (there is nothing to
    concatenate). *)
Theorem encode_returns_one_embedding_per_text :
  forall (char P : Type)
         (model_at : P -> bool -> nat -> option Z -> SimCSEModel (list (line char)))
         (cfg : Args) (p : P) (tr : bool) (k : nat) (texts : list (line char)),
    (0 < batch_size cfg)%Z ->
    (forall p tr k ml, encoder_ok (model_at p tr k ml)) ->
    encode model_at cfg p tr k [] = None
    /\ (texts <> [] ->
        exists embs,
          mapM (fun piece => forward (model_at p tr k None) piece false)
               (chunked texts (Z.to_nat (batch_size cfg * 8))) = Some embs
          /\ encode model_at cfg p tr k texts = Some (concat embs)
          /\ length (concat embs) = length texts).
Proof.
  intros char P model_at cfg p tr k texts HB Hok.
  split; [reflexivity|]. intros Hne.
  set (n := Z.to_nat (batch_size cfg * 8)).
  destruct (@chunked_iter_spec _ (length texts) n texts) as [Hc _];
    [unfold n; lia | lia |].
  fold (chunked texts n) in Hc.
  destruct (mapM_total (fun piece => forward (model_at p tr k None) piece false)
              (chunked texts n)) as [embs Hembs].
  { intros x. destruct (forward_raw_defined x (Hok p tr k None)) as [raw [H _]].
    now exists raw. }
  exists embs. split; [exact Hembs|]. split.
  - unfold encode. fold n. rewrite Hembs.
    destruct embs as [|e embs']; [|reflexivity].
    apply mapM_length in Hembs. simpl in Hembs.
    symmetry in Hembs. apply length_zero_iff_nil in Hembs.
    apply chunked_nil_iff in Hembs; [contradiction | unfold n; lia].
  - transitivity (length (concat (chunked texts n))); [|now rewrite Hc].
    eapply mapM_concat_length; [|exact Hembs].
    intros x y H.
    destruct (forward_raw_defined x (Hok p tr k None)) as [raw [Hr Hl]].
    cbv beta in H. rewrite Hr in H. injection H as <-. exact Hl.
Qed.

Lemma encode_returns_one_embedding_per_text_witness :
  encode (toy_model_at []) (toy_args 2 1 250) 0%nat false 0 [] = None
  /\ exists embs,
       encode (toy_model_at []) (toy_args 2 1 250) 0%nat false 0
              [text "a"; text "b"; text "c"] = Some (concat embs)
       /\ length (concat embs) = 3%nat.
Proof.
  destruct (@encode_returns_one_embedding_per_text
              ascii nat (toy_model_at []) (toy_args 2 1 250) 0%nat false 0%nat
              [text "a"; text "b"; text "c"])
    as [H0 H1].
  - reflexivity.
  - apply toy_encoder_ok.
  - split; [exact H0|].
    destruct H1 as [embs [_ [H2 H3]]]; [discriminate|].
    exists embs. split; [exact H2 | exact H3].
Defined.

(* ------------------------------------------------------------------ *)
(** ** More about the run: log, best score, updates, edge cases *)
(* ------------------------------------------------------------------ *)

Section MainMore.

Variable char : Type.
Variable isspace : char -> bool.
Variable score : Type.
Variable score_lt : score -> score -> bool.
Variable P : Type.
Variable model_at : P -> bool -> nat -> option Z -> SimCSEModel (list (line char)).
Variable optimizer_step : R -> Z -> P -> nat -> list (line char) -> P.
Variable sts_dev : (list (line char) -> option matrix) -> score.
Variable shuffle : Z -> list (line char) -> list (line char).
Variable cosine : vec -> vec -> R.

Local Abbreviation st_t := (state score P).
Local Abbreviation train_step' := (@train_step char score P model_at optimizer_step cosine).
Local Abbreviation evaluate' := (@evaluate char score score_lt P model_at sts_dev).
Local Abbreviation step_body' :=
  (@step_body char score score_lt P model_at optimizer_step sts_dev cosine).
Local Abbreviation epoch_body' :=
  (@epoch_body char score score_lt P model_at optimizer_step sts_dev shuffle cosine).
Local Abbreviation main' :=
  (@main char isspace score score_lt P model_at optimizer_step sts_dev shuffle cosine).
Local Abbreviation initial_state' := (@initial_state char score P model_at sts_dev).
Local Abbreviation inv_rule :=
  (@main_inv char isspace score score_lt P model_at optimizer_step sts_dev
             shuffle cosine).
Local Abbreviation eval_fields :=
  (@evaluate_fields char score score_lt P model_at sts_dev).
Local Abbreviation step_fields :=
  (@train_step_fields char score P model_at optimizer_step cosine).

Lemma updates_app (a b : list (event score P)) :
  updates (a ++ b) = updates a ++ updates b.
Proof.
  induction a as [|ev a IH]; simpl; [reflexivity|].
  destruct ev; simpl; now rewrite IH.
Qed.

(** The log holds one record per scorer call, with the epoch, the step
    and the score of that call. *)
Lemma run_logs_are_evaluations (cfg : Args) (file_lines : list (line char))
  (p0 : P) (st : st_t) (r : option exn) :
  main' cfg file_lines p0 = Ran st r ->
  map (@row_entry score) (logs st) = map Some (evaluations (trace st)).
Proof.
  apply (inv_rule (fun st => map (@row_entry score) (logs st)
                             = map Some (evaluations (trace st)))).
  - reflexivity.
  - intros sa H. simpl. rewrite evaluations_app. simpl.
    now rewrite app_nil_r.
  - intros e s b sa loss sb H Ht. apply step_fields in Ht.
    destruct Ht as [T [_ [_ [_ [L _]]]]].
    rewrite L, T, evaluations_app. simpl. now rewrite app_nil_r.
  - intros e s loss sa H.
    destruct (eval_fields cfg e s loss sa) as [T [_ [_ [_ [L _]]]]].
    rewrite L, T, evaluations_app, !map_app, H. f_equal.
    destruct (score_lt _ _); reflexivity.
Qed.

(** With a comparison that is irreflexive and transitive, the best score
    is a greatest score among those evaluated. *)
Lemma run_best_is_greatest (cfg : Args) (file_lines : list (line char))
  (p0 : P) (st : st_t) (r : option exn) :
  (forall x, score_lt x x = false) ->
  (forall x y z, score_lt x y = true -> score_lt y z = true ->
                 score_lt x z = true) ->
  main' cfg file_lines p0 = Ran st r ->
  (exists e s, In (e, s, best_stsb st) (evaluations (trace st)))
  /\ (forall e s sc, In (e, s, sc) (evaluations (trace st)) ->
                     score_lt (best_stsb st) sc = false).
Proof.
  intros Hirr Htrans.
  apply (inv_rule (fun st =>
    (exists e s, In (e, s, best_stsb st) (evaluations (trace st)))
    /\ (forall e s sc, In (e, s, sc) (evaluations (trace st)) ->
                       score_lt (best_stsb st) sc = false))).
  - split.
    + exists 0%Z, 0%Z. now left.
    + intros e s sc [[= _ _ <-]|[]]. apply Hirr.
  - intros sa H. simpl. rewrite evaluations_app. simpl.
    now rewrite app_nil_r.
  - intros e s b sa loss sb H Ht. apply step_fields in Ht.
    destruct Ht as [T [B1 _]].
    rewrite T, B1, evaluations_app. simpl. now rewrite app_nil_r.
  - intros e s loss sa [[e0 [s0 Hin]] Hmax].
    destruct (eval_fields cfg e s loss sa) as [T [B1 _]].
    rewrite T, B1, evaluations_app.
    set (sc := sts_dev (encode model_at cfg (params sa) false (draws sa))).
    assert (Hev : evaluations
                    ([ModelEval; StsDev e (s + 1) sc]
                     ++ (if score_lt (best_stsb sa) sc
                         then [TorchSave e (s + 1) (params sa)] else [])
                     ++ [@ModelTrain score P])
                  = [(e, (s + 1)%Z, sc)])
      by (destruct (score_lt _ _); reflexivity).
    rewrite Hev.
    destruct (score_lt (best_stsb sa) sc) eqn:Hlt.
    + split.
      * exists e, (s + 1)%Z. apply in_or_app. right. now left.
      * intros e1 s1 sc1 H1. apply in_app_or in H1.
        destruct H1 as [H1|[[= _ _ <-]|[]]]; [|apply Hirr].
        destruct (score_lt sc sc1) eqn:E; [|reflexivity].
        pose proof (Hmax e1 s1 sc1 H1) as Hc.
        rewrite (Htrans _ _ _ Hlt E) in Hc. discriminate.
    + split.
      * exists e0, s0. apply in_or_app. now left.
      * intros e1 s1 sc1 H1. apply in_app_or in H1.
        destruct H1 as [H1|[[= _ _ <-]|[]]]; [eauto | exact Hlt].
Qed.

(** The pair written to [best-metrics.json] is the step and the score
    of a record of the log. *)
Lemma run_best_is_logged (cfg : Args) (file_lines : list (line char))
  (p0 : P) (st : st_t) (r : option exn) :
  main' cfg file_lines p0 = Ran st r ->
  exists row e,
    In row (logs st)
    /\ row_entry row = Some (e, best_step st, best_stsb st).
Proof.
  apply (inv_rule (fun st => exists row e,
    In row (logs st)
    /\ row_entry row = Some (e, best_step st, best_stsb st))).
  - eexists. exists 0%Z. split; [now left | reflexivity].
  - intros sa H. exact H.
  - intros e s b sa loss sb H Ht. apply step_fields in Ht.
    destruct Ht as [_ [B1 [B2 [_ [L _]]]]]. now rewrite L, B1, B2.
  - intros e s loss sa [row [e0 [Hin Hrow]]].
    destruct (eval_fields cfg e s loss sa) as [_ [B1 [B2 [_ [L _]]]]].
    rewrite L, B1, B2.
    destruct (score_lt (best_stsb sa) _).
    + eexists. exists e. split; [apply in_or_app; right; now left|].
      reflexivity.
    + exists row, e0. split; [apply in_or_app; now left | exact Hrow].
Qed.

(** *** Updates *)

Lemma steps_updates (cfg : Args) (L e : Z) :
  forall (bs : list (list (line char))) (k : nat) (st st' : st_t),
    for_each (step_body' cfg L e)
             (combine (map Z.of_nat (seq k (length bs))) bs) st = (st', None) ->
    updates (trace st')
    = updates (trace st)
      ++ map (fun i => (e, Z.of_nat (S i))) (seq k (length bs)).
Proof.
  induction bs as [|b bs IH]; intros k st st'.
  - simpl. intros [= <-]. now rewrite app_nil_r.
  - cbn [length seq map combine for_each]. unfold step_body at 1.
    cbn [fst snd].
    destruct (train_step' cfg e (Z.of_nat k) b st) as [ex|[loss st1]] eqn:Et;
      [discriminate|].
    apply step_fields in Et. destruct Et as [T _].
    assert (U1 : updates (trace st1)
                 = updates (trace st) ++ [(e, Z.of_nat (S k))]).
    { rewrite T, updates_app. simpl. do 3 f_equal. lia. }
    destruct (eval_due cfg L (Z.of_nat k)) as [[|]|]; [| |discriminate].
    + intros H. apply IH in H. rewrite H.
      destruct (eval_fields cfg e (Z.of_nat k) loss st1) as [T2 _].
      rewrite T2, updates_app.
      replace (updates ([ModelEval; StsDev e (Z.of_nat k + 1) _] ++ _ ++ _))
        with (@nil (Z * Z)) by (destruct (score_lt _ _); reflexivity).
      rewrite app_nil_r, U1, <- app_assoc. reflexivity.
    + intros H. apply IH in H. rewrite H, U1, <- app_assoc. reflexivity.
Qed.

Lemma epochs_updates (cfg : Args) (data : list (line char)) :
  forall (es : list Z) (st st' : st_t),
    for_each (epoch_body' cfg data) es st = (st', None) ->
    updates (trace st')
    = updates (trace st)
      ++ flat_map (fun e => map (fun i => (e, Z.of_nat (S i)))
                                (seq 0 (length (epoch_batches shuffle cfg data e))))
                  es.
Proof.
  induction es as [|e es IH]; intros st st'.
  - simpl. intros [= <-]. now rewrite app_nil_r.
  - cbn [for_each flat_map].
    destruct (epoch_body' cfg data e st) as [st1 [ex|]] eqn:Ee; [discriminate|].
    intros H. apply IH in H. rewrite H.
    unfold epoch_body, enumerate in Ee. apply steps_updates in Ee.
    rewrite Ee. simpl. rewrite updates_app. simpl.
    now rewrite app_nil_r, <- app_assoc.
Qed.

(** *** Epochs without a batch *)

Lemma epochs_idle (cfg : Args) (data : list (line char)) :
  (forall e, epoch_batches shuffle cfg data e = []) ->
  forall (es : list Z) (st : st_t),
    exists st',
      for_each (epoch_body' cfg data) es st = (st', None)
      /\ params st' = params st
      /\ logs st' = logs st
      /\ best_stsb st' = best_stsb st
      /\ best_step st' = best_step st
      /\ evaluations (trace st') = evaluations (trace st)
      /\ updates (trace st') = updates (trace st)
      /\ saves (trace st') = saves (trace st).
Proof.
  intros Hnone es. induction es as [|e es IH]; intros st.
  - exists st. simpl. auto 10.
  - cbn [for_each]. unfold epoch_body at 1. rewrite Hnone. cbn [enumerate
      length seq map combine for_each].
    destruct (IH (set_mode true st)) as [st' [H [H1 [H2 [H3 [H4 [H5 [H6 H7]]]]]]]].
    exists st'. rewrite H. simpl in *.
    rewrite evaluations_app in H5. rewrite updates_app in H6.
    rewrite saves_app in H7. simpl in *. rewrite app_nil_r in *.
    auto 10.
Qed.

End MainMore.

Lemma main_ran_inv :
  forall (char : Type) (isspace : char -> bool)
         (score : Type) (score_lt : score -> score -> bool) (P : Type)
         (model_at : P -> bool -> nat -> option Z -> SimCSEModel (list (line char)))
         (optimizer_step : R -> Z -> P -> nat -> list (line char) -> P)
         (sts_dev : (list (line char) -> option matrix) -> score)
         (shuffle : Z -> list (line char) -> list (line char))
         (cosine : vec -> vec -> R)
         (cfg : Args) (file_lines : list (line char)) (p0 : P)
         (st : state score P) (r : option exn),
    main isspace score_lt model_at optimizer_step sts_dev shuffle cosine
         cfg file_lines p0 = Ran st r ->
    (0 < batch_size cfg)%Z
    /\ post_init isspace file_lines <> []
    /\ for_each (epoch_body score_lt model_at optimizer_step sts_dev shuffle
                            cosine cfg (post_init isspace file_lines))
                (range (epochs cfg)) (initial_state model_at sts_dev cfg p0)
       = (st, r).
Proof.
  intros char isspace score score_lt P model_at optimizer_step sts_dev
         shuffle cosine cfg file_lines p0 st r. unfold main.
  destruct (Z.leb_spec (batch_size cfg) 0); [discriminate|].
  destruct (Nat.eqb_spec (length (post_init isspace file_lines)) 0) as [E|E];
    [discriminate|].
  cbn [orb]. destruct (for_each _ _ _) as [st1 r1]. intros [= <- <-].
  repeat split; [assumption|]. intros Hnil. now rewrite Hnil in E.
Qed.

Lemma main_ran_intro :
  forall (char : Type) (isspace : char -> bool)
         (score : Type) (score_lt : score -> score -> bool) (P : Type)
         (model_at : P -> bool -> nat -> option Z -> SimCSEModel (list (line char)))
         (optimizer_step : R -> Z -> P -> nat -> list (line char) -> P)
         (sts_dev : (list (line char) -> option matrix) -> score)
         (shuffle : Z -> list (line char) -> list (line char))
         (cosine : vec -> vec -> R)
         (cfg : Args) (file_lines : list (line char)) (p0 : P)
         (st : state score P) (r : option exn),
    (0 < batch_size cfg)%Z ->
    post_init isspace file_lines <> [] ->
    for_each (epoch_body score_lt model_at optimizer_step sts_dev shuffle
                         cosine cfg (post_init isspace file_lines))
             (range (epochs cfg)) (initial_state model_at sts_dev cfg p0)
    = (st, r) ->
    main isspace score_lt model_at optimizer_step sts_dev shuffle cosine
         cfg file_lines p0 = Ran st r.
Proof.
  intros char isspace score score_lt P model_at optimizer_step sts_dev
         shuffle cosine cfg file_lines p0 st r HB Hdata Hrun. unfold main.
  destruct (Z.leb_spec (batch_size cfg) 0); [lia|].
  destruct (Nat.eqb_spec (length (post_init isspace file_lines)) 0) as [E|E].
  { destruct (post_init isspace file_lines); [congruence | discriminate]. }
  cbn [orb]. now rewrite Hrun.
Qed.

(** X10. However a run ends, its log holds exactly one record per call
    of the scorer, in order, and each record holds the epoch, the step and
    the score of its call; the record of step 0 is the only one with an
    empty loss. *)
Theorem log_holds_one_record_per_evaluation :
  forall (char : Type) (isspace : char -> bool)
         (score : Type) (score_lt : score -> score -> bool) (P : Type)
         (model_at : P -> bool -> nat -> option Z -> SimCSEModel (list (line char)))
         (optimizer_step : R -> Z -> P -> nat -> list (line char) -> P)
         (sts_dev : (list (line char) -> option matrix) -> score)
         (shuffle : Z -> list (line char) -> list (line char))
         (cosine : vec -> vec -> R)
         (cfg : Args) (file_lines : list (line char)) (p0 : P)
         (st : state score P) (r : option exn),
    main isspace score_lt model_at optimizer_step sts_dev shuffle cosine
         cfg file_lines p0 = Ran st r ->
    map (@row_entry score) (logs st) = map Some (evaluations (trace st))
    /\ length (logs st) = length (evaluations (trace st))
    /\ exists first rest,
         logs st = first :: rest
         /\ cell first "loss" = None
         /\ Forall (fun row => cell row "loss" <> None) rest.
Proof.
  intros char isspace score score_lt P model_at optimizer_step sts_dev
         shuffle cosine cfg file_lines p0 st r Hrun.
  pose proof (run_logs_are_evaluations _ _ _ _ _ _ _ _ _ _ Hrun) as H.
  split; [exact H|]. split.
  - apply (f_equal (@length _)) in H. now rewrite !length_map in H.
  - destruct (run_logs_shape _ _ _ _ _ _ _ _ _ _ Hrun)
      as [s0 [rows [H1 [H2 _]]]].
    eexists. exists rows. split; [exact H1|]. split; [reflexivity|].
    eapply Forall_impl; [|exact H2]. now intros row [_ Hl].
Qed.

Lemma log_holds_one_record_per_evaluation_witness :
  finished run_improving = true
  /\ map (@row_entry Z) (logs_of run_improving)
     = [Some (0, 0, 1); Some (0, 1, 2); Some (0, 2, 1);
        Some (1, 1, 3); Some (1, 2, 1)]%Z
  /\ exists st,
       run_improving = Ran st None
       /\ map (@row_entry Z) (logs st) = map Some (evaluations (trace st)).
Proof.
  assert (F : finished run_improving = true) by (lazy; reflexivity).
  split; [exact F|]. split; [lazy; reflexivity|].
  destruct (ran_inv _ F) as [st E]. exists st. split; [exact E|].
  exact (proj1 (@log_holds_one_record_per_evaluation
                  _ _ _ _ _ _ _ _ _ _ _ _ _ _ _ E)).
Defined.

(** X11. When the comparison of scores is irreflexive and transitive
    (as [<] on floats is), the best score a run ends with is a greatest
    evaluated score: some evaluation returned it, and no evaluation
    returned a strictly greater one. *)
Theorem best_score_is_a_greatest_evaluated_score :
  forall (char : Type) (isspace : char -> bool)
         (score : Type) (score_lt : score -> score -> bool) (P : Type)
         (model_at : P -> bool -> nat -> option Z -> SimCSEModel (list (line char)))
         (optimizer_step : R -> Z -> P -> nat -> list (line char) -> P)
         (sts_dev : (list (line char) -> option matrix) -> score)
         (shuffle : Z -> list (line char) -> list (line char))
         (cosine : vec -> vec -> R)
         (cfg : Args) (file_lines : list (line char)) (p0 : P)
         (st : state score P) (r : option exn),
    (forall x, score_lt x x = false) ->
    (forall x y z, score_lt x y = true -> score_lt y z = true ->
                   score_lt x z = true) ->
    main isspace score_lt model_at optimizer_step sts_dev shuffle cosine
         cfg file_lines p0 = Ran st r ->
    (exists e s, In (e, s, best_stsb st) (evaluations (trace st)))
    /\ (forall e s sc, In (e, s, sc) (evaluations (trace st)) ->
                       score_lt (best_stsb st) sc = false).
Proof.
  intros char isspace score score_lt P model_at optimizer_step sts_dev
         shuffle cosine cfg file_lines p0 st r Hirr Htrans Hrun.
  exact (run_best_is_greatest _ _ _ _ _ _ _ _ _ _ Hirr Htrans Hrun).
Qed.

Lemma Z_ltb_trans (x y z : Z) :
  Z.ltb x y = true -> Z.ltb y z = true -> Z.ltb x z = true.
Proof. rewrite !Z.ltb_lt. lia. Qed.

Lemma best_score_is_a_greatest_evaluated_score_witness :
  map (fun ev => snd ev) (evaluations (trace_of run_improving))
  = [1; 2; 1; 3; 1]%Z
  /\ exists st,
       run_improving = Ran st None
       /\ best_stsb st = 3%Z
       /\ forall e s sc, In (e, s, sc) (evaluations (trace st)) ->
                         Z.ltb (best_stsb st) sc = false.
Proof.
  assert (F : finished run_improving = true) by (lazy; reflexivity).
  split; [lazy; reflexivity|].
  destruct (ran_inv _ F) as [st E]. exists st. split; [exact E|].
  assert (B : best_stsb st = 3%Z).
  { change (best_stsb st) with (best_stsb_of (Ran st None) 0%Z).
    rewrite <- E. lazy. reflexivity. }
  split; [exact B|].
  exact (proj2 (@best_score_is_a_greatest_evaluated_score
                  _ _ _ _ _ _ _ _ _ _ _ _ _ _ _
                  Z.ltb_irrefl Z_ltb_trans E)).
Defined.

(** X12. The step and the score written to [best-metrics.json] are the
    step and the score of one of the records of the log. *)
Theorem best_metrics_pair_is_a_log_record :
  forall (char : Type) (isspace : char -> bool)
         (score : Type) (score_lt : score -> score -> bool) (P : Type)
         (model_at : P -> bool -> nat -> option Z -> SimCSEModel (list (line char)))
         (optimizer_step : R -> Z -> P -> nat -> list (line char) -> P)
         (sts_dev : (list (line char) -> option matrix) -> score)
         (shuffle : Z -> list (line char) -> list (line char))
         (cosine : vec -> vec -> R)
         (cfg : Args) (file_lines : list (line char)) (p0 : P)
         (st : state score P),
    main isspace score_lt model_at optimizer_step sts_dev shuffle cosine
         cfg file_lines p0 = Ran st None ->
    exists row e step sc,
      best_metrics_json (Ran st None)
      = Some [("step"%string, VInt step); ("stsb"%string, VScore sc)]
      /\ In row (logs st)
      /\ row_entry row = Some (e, step, sc).
Proof.
  intros char isspace score score_lt P model_at optimizer_step sts_dev
         shuffle cosine cfg file_lines p0 st Hrun.
  destruct (run_best_is_logged _ _ _ _ _ _ _ _ _ _ Hrun)
    as [row [e [Hin Hrow]]].
  exists row, e, (best_step st), (best_stsb st). auto.
Qed.

Lemma best_metrics_pair_is_a_log_record_witness :
  best_metrics_json run_improving
  = Some [("step"%string, VInt 1%Z); ("stsb"%string, VScore 3%Z)]
  /\ exists st row e step sc,
       run_improving = Ran st None
       /\ In row (logs st)
       /\ row_entry row = Some (e, step, sc)
       /\ best_metrics_json (Ran st None)
          = Some [("step"%string, VInt step); ("stsb"%string, VScore sc)].
Proof.
  assert (F : finished run_improving = true) by (lazy; reflexivity).
  split; [lazy; reflexivity|].
  destruct (ran_inv _ F) as [st E].
  destruct (@best_metrics_pair_is_a_log_record
              _ _ _ _ _ _ _ _ _ _ _ _ _ _ E)
    as [row [e [step [sc [H1 [H2 H3]]]]]].
  exists st, row, e, step, sc. auto.
Defined.

Lemma flat_map_length_const {A B : Type} (f : A -> list B) (n : nat) (l : list A) :
  (forall x, length (f x) = n) -> length (flat_map f l) = (length l * n)%nat.
Proof.
  intros Hf. induction l as [|x l IH]; simpl; [reflexivity|].
  now rewrite length_app, Hf, IH.
Qed.

(** X13. A run that ends without an exception has made exactly one
    update per batch: in every epoch the steps 1 to [len(train_dataloader)]
    in order, so [len(train_dataloader) * epochs] updates in all (none for
    a negative number of epochs), which is the number of training steps the
    learning-rate schedule was created with. *)
Theorem completed_run_updates_once_per_batch :
  forall (char : Type) (isspace : char -> bool)
         (score : Type) (score_lt : score -> score -> bool) (P : Type)
         (model_at : P -> bool -> nat -> option Z -> SimCSEModel (list (line char)))
         (optimizer_step : R -> Z -> P -> nat -> list (line char) -> P)
         (sts_dev : (list (line char) -> option matrix) -> score)
         (shuffle : Z -> list (line char) -> list (line char))
         (cosine : vec -> vec -> R)
         (cfg : Args) (file_lines : list (line char)) (p0 : P)
         (st : state score P),
    (forall e d, Permutation (shuffle e d) d) ->
    main isspace score_lt model_at optimizer_step sts_dev shuffle cosine
         cfg file_lines p0 = Ran st None ->
    let len_dataloader :=
      dataloader_len (Z.of_nat (length (post_init isspace file_lines)))
                     (batch_size cfg) in
    updates (trace st)
    = flat_map (fun e => map (fun i => (e, Z.of_nat (S i)))
                             (seq 0 (Z.to_nat len_dataloader)))
               (range (epochs cfg))
    /\ Z.of_nat (length (updates (trace st)))
       = (len_dataloader * Z.max 0 (epochs cfg))%Z.
Proof.
  intros char isspace score score_lt P model_at optimizer_step sts_dev
         shuffle cosine cfg file_lines p0 st Hperm Hrun L.
  destruct (main_ran_inv _ _ _ _ _ _ _ _ _ _ Hrun) as [HB [_ Hloop]].
  apply epochs_updates in Hloop. simpl in Hloop.
  assert (E : updates (trace st)
              = flat_map (fun e => map (fun i => (e, Z.of_nat (S i)))
                                       (seq 0 (Z.to_nat L)))
                         (range (epochs cfg))).
  { rewrite Hloop. apply flat_map_ext. intros e.
    now rewrite (batches_count shuffle cfg _ e HB Hperm). }
  split; [exact E|].
  rewrite E, (@flat_map_length_const _ _ _ (Z.to_nat L)).
  - unfold range. rewrite length_map, length_seq.
    assert (0 <= L)%Z by (apply Z.div_pos; lia). lia.
  - intros e. now rewrite length_map, length_seq.
Qed.

Lemma completed_run_updates_once_per_batch_witness :
  finished run_improving = true
  /\ updates (trace_of run_improving) = [(0, 1); (0, 2); (1, 1); (1, 2)]%Z
  /\ exists st,
       run_improving = Ran st None
       /\ Z.of_nat (length (updates (trace st))) = (2 * 2)%Z.
Proof.
  assert (F : finished run_improving = true) by (lazy; reflexivity).
  split; [exact F|]. split; [lazy; reflexivity|].
  destruct (ran_inv _ F) as [st E]. exists st. split; [exact E|].
  exact (proj2 (@completed_run_updates_once_per_batch
                  _ _ _ _ _ _ _ _ _ _ _ _ _ _ toy_shuffle_perm E)).
Defined.



(** X15. An evaluation interval of 0 ends the run in the first step:
    with at least one epoch and at least one full batch, the run makes the
    update of step 1 and then raises [ZeroDivisionError] on the test of the
    interval, after the step-0 evaluation and before any other; nothing is
    evaluated for the updated parameters, and neither [logs.csv] nor
    [best-metrics.json] is written. *)
Theorem zero_interval_aborts_after_first_update :
  forall (char : Type) (isspace : char -> bool)
         (score : Type) (score_lt : score -> score -> bool) (P : Type)
         (model_at : P -> bool -> nat -> option Z -> SimCSEModel (list (line char)))
         (optimizer_step : R -> Z -> P -> nat -> list (line char) -> P)
         (sts_dev : (list (line char) -> option matrix) -> score)
         (shuffle : Z -> list (line char) -> list (line char))
         (cosine : vec -> vec -> R)
         (cfg : Args) (file_lines : list (line char)) (p0 : P),
    eval_logging_interval cfg = 0%Z ->
    (1 <= epochs cfg)%Z ->
    (0 < batch_size cfg)%Z ->
    (batch_size cfg <= Z.of_nat (length (post_init isspace file_lines)))%Z ->
    (forall p tr k ml, encoder_ok (model_at p tr k ml)) ->
    (forall e d, Permutation (shuffle e d) d) ->
    let o := main isspace score_lt model_at optimizer_step sts_dev shuffle
                  cosine cfg file_lines p0 in
    (exists st,
        o = Ran st (Some ZeroDivisionError)
        /\ trace st
           = [ModelEval;
              StsDev 0 0 (sts_dev (encode model_at cfg p0 false 0));
              ModelTrain; OptimizerStep 0 1])
    /\ logs_csv o = None
    /\ best_metrics_json o = None.
Proof.
  intros char isspace score score_lt P model_at optimizer_step sts_dev
         shuffle cosine cfg file_lines p0 HK He HB HN Hok Hperm o.
  set (data := post_init isspace file_lines) in *.
  assert (Hdata : data <> []).
  { intros E. rewrite E in HN. simpl in HN. lia. }
  assert (Hone : exists k, Z.to_nat (epochs cfg) = S k)
    by (exists (Z.to_nat (epochs cfg) - 1)%nat; lia).
  destruct Hone as [k Hk].
  pose proof (batches_count shuffle cfg data 0%Z HB Hperm) as Hcount.
  pose proof (batches_all_full (Z.to_nat (batch_size cfg)) (shuffle 0%Z data))
    as Hfull.
  fold (epoch_batches shuffle cfg data 0) in Hfull.
  assert (Hpos : (1 <= Z.to_nat (dataloader_len (Z.of_nat (length data))
                                                (batch_size cfg)))%nat).
  { unfold dataloader_len.
    assert (1 <= Z.of_nat (length data) / batch_size cfg)%Z
      by (apply Z.div_le_lower_bound; lia).
    lia. }
  destruct (epoch_batches shuffle cfg data 0) as [|b bs] eqn:Eb;
    [simpl in Hcount; lia|].
  inversion Hfull as [|? ? Hb _]; subst.
  set (st0 := set_mode true (initial_state model_at sts_dev cfg p0)).
  destruct (@train_step_defined char score P model_at optimizer_step cosine
              cfg 0%Z 0%Z b st0 Hok Hb) as [loss [st1 Ht]].
  assert (Hrun : o = Ran st1 (Some ZeroDivisionError)).
  { unfold o. apply main_ran_intro; [assumption | assumption |].
    fold data. unfold range. rewrite Hk.
    cbn [seq map for_each]. change (Z.of_nat 0) with 0%Z.
    unfold epoch_body at 1. rewrite Eb.
    unfold enumerate. cbn [length seq map combine for_each].
    change (Z.of_nat 0) with 0%Z.
    unfold step_body at 1. cbn [fst snd]. fold st0. rewrite Ht.
    unfold eval_due. rewrite HK. reflexivity. }
  split; [|rewrite Hrun; split; reflexivity].
  exists st1. split; [exact Hrun|].
  apply train_step_fields in Ht. destruct Ht as [T _].
  rewrite T. reflexivity.
Qed.

Lemma zero_interval_aborts_after_first_update_witness :
  exists st,
    toy_main (@nil nat) (toy_args 2 1 0) toy_file
    = Ran st (Some ZeroDivisionError)
    /\ updates (trace st) = [(0, 1)]%Z.
Proof.
  destruct (@zero_interval_aborts_after_first_update
              ascii py_isspace Z Z.ltb nat (toy_model_at [])
              toy_optimizer_step toy_sts_dev toy_shuffle toy_cosine
              (toy_args 2 1 0) toy_file 0%nat)
    as [[st [H1 H2]] _].
  - reflexivity.
  - apply Z.leb_le. reflexivity.
  - reflexivity.
  - apply Z.leb_le. reflexivity.
  - apply toy_encoder_ok.
  - apply toy_shuffle_perm.
  - exists st. split; [exact H1|]. rewrite H2. reflexivity.
Defined.



Section MainParams.

Variable char : Type.
Variable isspace : char -> bool.
Variable score : Type.
Variable score_lt : score -> score -> bool.
Variable P : Type.
Variable model_at : P -> bool -> nat -> option Z -> SimCSEModel (list (line char)).
Variable optimizer_step : R -> Z -> P -> nat -> list (line char) -> P.
Variable sts_dev : (list (line char) -> option matrix) -> score.
Variable shuffle : Z -> list (line char) -> list (line char).
Variable cosine : vec -> vec -> R.

Local Abbreviation st_t := (state score P).

Lemma train_step_params (cfg : Args) (e s : Z) (b : list (line char))
  (st st' : st_t) (loss : R) :
  train_step model_at optimizer_step cosine cfg e s b st = inr (loss, st') ->
  (draws st', params st') = update_with optimizer_step cfg (draws st, params st) b.
Proof.
  unfold train_step.
  destruct (forward _ b true); [|discriminate].
  destruct (forward _ b true); [|discriminate].
  destruct (contrastive_loss _ _ _ _ _); [|discriminate].
  intros [= _ <-]. reflexivity.
Qed.

Lemma evaluate_params (cfg : Args) (e s : Z) (loss : R) (st : st_t) :
  let st' := evaluate score_lt model_at sts_dev cfg e s loss st in
  draws st' = draws st /\ params st' = params st.
Proof.
  unfold evaluate, update_best. simpl.
  destruct (score_lt _ _); simpl; auto.
Qed.

Lemma steps_params (cfg : Args) (L e : Z) :
  forall (bs : list (list (line char))) (k : nat) (st st' : st_t),
    for_each (step_body score_lt model_at optimizer_step sts_dev cosine cfg L e)
             (combine (map Z.of_nat (seq k (length bs))) bs) st = (st', None) ->
    (draws st', params st') = fold_left (update_with optimizer_step cfg) bs (draws st, params st).
Proof.
  induction bs as [|b bs IH]; intros k st st'.
  - simpl. now intros [= <-].
  - cbn [length seq map combine for_each fold_left]. unfold step_body at 1.
    cbn [fst snd].
    destruct (train_step _ _ _ cfg e (Z.of_nat k) b st) as [ex|[loss st1]] eqn:Et;
      [discriminate|].
    apply train_step_params in Et. rewrite <- Et.
    destruct (eval_due cfg L (Z.of_nat k)) as [[|]|]; [| |discriminate].
    + intros H. apply IH in H. rewrite H.
      destruct (evaluate_params cfg e (Z.of_nat k) loss st1) as [-> ->].
      reflexivity.
    + apply IH.
Qed.

Lemma epochs_params (cfg : Args) (data : list (line char)) :
  forall (es : list Z) (st st' : st_t),
    for_each (epoch_body score_lt model_at optimizer_step sts_dev shuffle
                         cosine cfg data) es st = (st', None) ->
    (draws st', params st')
    = fold_left (update_with optimizer_step cfg)
                (flat_map (epoch_batches shuffle cfg data) es)
                (draws st, params st).
Proof.
  induction es as [|e es IH]; intros st st'.
  - simpl. now intros [= <-].
  - cbn [for_each flat_map]. rewrite fold_left_app.
    destruct (epoch_body _ _ _ _ _ _ cfg data e st) as [st1 [ex|]] eqn:Ee;
      [discriminate|].
    intros H. apply IH in H. rewrite H.
    unfold epoch_body, enumerate in Ee. apply steps_params in Ee.
    now rewrite Ee.
Qed.

Lemma fold_update_draws (cfg : Args) (bs : list (list (line char)))
  (k : nat) (p : P) :
  fst (fold_left (update_with optimizer_step cfg) bs (k, p))
  = (k + 2 * length bs)%nat.
Proof.
  revert k p. induction bs as [|b bs IH]; intros k p; simpl.
  - lia.
  - unfold update_with at 2. cbn [fst snd]. rewrite IH. lia.
Qed.

End MainParams.

(** X17. The parameters a completed run ends with are its initial
    parameters updated once with every batch, in the order the batches were
    yielded, each update drawing two fresh dropout masks and made with the
    temperature and the maximal sequence length of the configuration;
    evaluations and checkpoint writes leave no mark on them, so a run that
    differs in the evaluation interval alone ends with the same
    parameters. *)
Theorem final_parameters_depend_on_batches_only :
  forall (char : Type) (isspace : char -> bool)
         (score : Type) (score_lt : score -> score -> bool) (P : Type)
         (model_at : P -> bool -> nat -> option Z -> SimCSEModel (list (line char)))
         (optimizer_step : R -> Z -> P -> nat -> list (line char) -> P)
         (sts_dev : (list (line char) -> option matrix) -> score)
         (shuffle : Z -> list (line char) -> list (line char))
         (cosine : vec -> vec -> R)
         (cfg cfg' : Args) (file_lines : list (line char)) (p0 : P)
         (st st' : state score P),
    main isspace score_lt model_at optimizer_step sts_dev shuffle cosine
         cfg file_lines p0 = Ran st None ->
    let batches :=
      flat_map (epoch_batches shuffle cfg (post_init isspace file_lines))
               (range (epochs cfg)) in
    (draws st, params st)
    = fold_left (update_with optimizer_step cfg) batches (0%nat, p0)
    /\ draws st = (2 * length batches)%nat
    /\ (batch_size cfg' = batch_size cfg ->
        epochs cfg' = epochs cfg ->
        temperature cfg' = temperature cfg ->
        max_seq_len cfg' = max_seq_len cfg ->
        main isspace score_lt model_at optimizer_step sts_dev shuffle cosine
             cfg' file_lines p0 = Ran st' None ->
        params st' = params st).
Proof.
  intros char isspace score score_lt P model_at optimizer_step sts_dev
         shuffle cosine cfg cfg' file_lines p0 st st' Hrun batches.
  destruct (main_ran_inv _ _ _ _ _ _ _ _ _ _ Hrun) as [_ [_ Hloop]].
  apply epochs_params in Hloop. fold batches in Hloop. simpl in Hloop.
  split; [exact Hloop|]. split.
  - apply (f_equal fst) in Hloop. cbn [fst] in Hloop. rewrite Hloop.
    apply fold_update_draws.
  - intros HB He Ht Hml Hrun'.
    destruct (main_ran_inv _ _ _ _ _ _ _ _ _ _ Hrun') as [_ [_ Hloop']].
    apply epochs_params in Hloop'. simpl in Hloop'.
    assert (Hsame : flat_map (epoch_batches shuffle cfg'
                                (post_init isspace file_lines))
                             (range (epochs cfg'))
                    = batches).
    { unfold batches, epoch_batches. now rewrite HB, He. }
    assert (Hupd : update_with optimizer_step cfg'
                   = update_with optimizer_step cfg).
    { unfold update_with. now rewrite Ht, Hml. }
    rewrite Hsame, Hupd, <- Hloop in Hloop'. now injection Hloop'.
Qed.

Lemma final_parameters_depend_on_batches_only_witness :
  finished run_improving = true
  /\ finished (toy_main [1; 2; 1; 3]%nat (toy_args 2 2 250) toy_file) = true
  /\ exists st st',
       run_improving = Ran st None
       /\ toy_main [1; 2; 1; 3]%nat (toy_args 2 2 250) toy_file = Ran st' None
       /\ params st' = params st
       /\ draws st = 8%nat.
Proof.
  assert (F : finished run_improving = true) by (lazy; reflexivity).
  assert (F' : finished (toy_main [1; 2; 1; 3]%nat (toy_args 2 2 250) toy_file)
               = true) by (lazy; reflexivity).
  split; [exact F|]. split; [exact F'|].
  destruct (ran_inv _ F) as [st E]. destruct (ran_inv _ F') as [st' E'].
  exists st, st'. split; [exact E|]. split; [exact E'|].
  destruct (@final_parameters_depend_on_batches_only
              _ _ _ _ _ _ _ _ _ _ (toy_args 2 2 1) (toy_args 2 2 250)
              _ _ st st' E)
    as [_ [H2 H3]].
  split; [exact (H3 eq_refl eq_refl eq_refl eq_refl E')|].
  rewrite H2. lazy. reflexivity.
Defined.

(* ------------------------------------------------------------------ *)
(** ** First-seen best wins *)
(* ------------------------------------------------------------------ *)

Section MainFirst.

Variable char : Type.
Variable isspace : char -> bool.
Variable score : Type.
Variable score_lt : score -> score -> bool.
Variable P : Type.
Variable model_at : P -> bool -> nat -> option Z -> SimCSEModel (list (line char)).
Variable optimizer_step : R -> Z -> P -> nat -> list (line char) -> P.
Variable sts_dev : (list (line char) -> option matrix) -> score.
Variable shuffle : Z -> list (line char) -> list (line char).
Variable cosine : vec -> vec -> R.

Local Abbreviation st_t := (state score P).

(** The evaluation the best score and step come from splits the
    evaluations: none before it returned the best score, none anywhere
    returned a strictly greater one. *)
Definition first_best (st : st_t) : Prop :=
  exists pre e post,
    evaluations (trace st) = pre ++ (e, best_step st, best_stsb st) :: post
    /\ (forall x, In x pre -> snd x <> best_stsb st)
    /\ (forall x, In x (evaluations (trace st)) ->
                  score_lt (best_stsb st) (snd x) = false).

Lemma run_first_best (cfg : Args) (file_lines : list (line char))
  (p0 : P) (st : st_t) (r : option exn) :
  (forall x, score_lt x x = false) ->
  (forall x y z, score_lt x y = true -> score_lt y z = true ->
                 score_lt x z = true) ->
  main isspace score_lt model_at optimizer_step sts_dev shuffle cosine
       cfg file_lines p0 = Ran st r ->
  first_best st.
Proof.
  intros Hirr Htrans. apply main_inv; unfold first_best.
  - exists [], 0%Z, []. split; [reflexivity|]. split; [intros x []|].
    intros x [<-|[]]. apply Hirr.
  - intros sa H. simpl. rewrite evaluations_app. simpl.
    now rewrite app_nil_r.
  - intros e s b sa loss sb H Ht. apply train_step_fields in Ht.
    destruct Ht as [T [B1 [B2 _]]].
    rewrite T, B1, B2, evaluations_app. simpl. now rewrite app_nil_r.
  - intros e s loss sa [pre [e0 [post [Hsplit [Hpre Hmax]]]]].
    destruct (evaluate_fields score_lt model_at sts_dev cfg e s loss sa)
      as [T [B1 [B2 _]]].
    rewrite T, B1, B2, evaluations_app.
    set (sc := sts_dev (encode model_at cfg (params sa) false (draws sa))).
    assert (Hev : evaluations
                    ([ModelEval; StsDev e (s + 1) sc]
                     ++ (if score_lt (best_stsb sa) sc
                         then [TorchSave e (s + 1) (params sa)] else [])
                     ++ [@ModelTrain score P])
                  = [(e, (s + 1)%Z, sc)])
      by (destruct (score_lt _ _); reflexivity).
    rewrite Hev.
    destruct (score_lt (best_stsb sa) sc) eqn:Hlt.
    + exists (evaluations (trace sa)), e, []. split; [reflexivity|]. split.
      * intros x Hx Heq. pose proof (Hmax x Hx) as Hc.
        rewrite Heq in Hc. congruence.
      * intros x Hx. apply in_app_or in Hx.
        destruct Hx as [Hx|[<-|[]]]; [|apply Hirr].
        destruct (score_lt sc (snd x)) eqn:E; [|reflexivity].
        pose proof (Hmax x Hx) as Hc.
        rewrite (Htrans _ _ _ Hlt E) in Hc. discriminate.
    + exists pre, e0, (post ++ [(e, (s + 1)%Z, sc)]). split.
      * rewrite Hsplit, <- app_assoc. reflexivity.
      * split; [exact Hpre|].
        intros x Hx. apply in_app_or in Hx.
        destruct Hx as [Hx|[<-|[]]]; [now apply Hmax | exact Hlt].
Qed.

End MainFirst.

(** X18. First-seen best wins: with an irreflexive and transitive
    comparison, the step recorded with the best score is the step of the
    first evaluation that returned that score; no earlier evaluation
    returned it, and none at all returned a strictly greater one. *)
Theorem best_step_is_first_evaluation_with_best_score :
  forall (char : Type) (isspace : char -> bool)
         (score : Type) (score_lt : score -> score -> bool) (P : Type)
         (model_at : P -> bool -> nat -> option Z -> SimCSEModel (list (line char)))
         (optimizer_step : R -> Z -> P -> nat -> list (line char) -> P)
         (sts_dev : (list (line char) -> option matrix) -> score)
         (shuffle : Z -> list (line char) -> list (line char))
         (cosine : vec -> vec -> R)
         (cfg : Args) (file_lines : list (line char)) (p0 : P)
         (st : state score P) (r : option exn),
    (forall x, score_lt x x = false) ->
    (forall x y z, score_lt x y = true -> score_lt y z = true ->
                   score_lt x z = true) ->
    main isspace score_lt model_at optimizer_step sts_dev shuffle cosine
         cfg file_lines p0 = Ran st r ->
    exists pre e post,
      evaluations (trace st) = pre ++ (e, best_step st, best_stsb st) :: post
      /\ (forall x, In x pre -> snd x <> best_stsb st)
      /\ (forall x, In x (evaluations (trace st)) ->
                    score_lt (best_stsb st) (snd x) = false).
Proof.
  intros char isspace score score_lt P model_at optimizer_step sts_dev
         shuffle cosine cfg file_lines p0 st r Hirr Htrans Hrun.
  exact (run_first_best _ _ _ _ _ _ _ _ _ _ Hirr Htrans Hrun).
Qed.

(** The score 2 is reached at step 1 and again at step 2 of the first
    epoch: the record keeps step 1. *)
Lemma best_step_is_first_evaluation_with_best_score_witness :
  evaluations (trace_of (toy_main [1; 2; 2]%nat (toy_args 2 1 1) toy_file))
  = [(0, 0, 1); (0, 1, 2); (0, 2, 2)]%Z
  /\ best_step_of (toy_main [1; 2; 2]%nat (toy_args 2 1 1) toy_file) = 1%Z
  /\ exists st pre e post,
       toy_main [1; 2; 2]%nat (toy_args 2 1 1) toy_file = Ran st None
       /\ evaluations (trace st)
          = pre ++ (e, best_step st, best_stsb st) :: post
       /\ (forall x, In x pre -> snd x <> best_stsb st).
Proof.
  assert (F : finished (toy_main [1; 2; 2]%nat (toy_args 2 1 1) toy_file)
              = true) by (lazy; reflexivity).
  split; [lazy; reflexivity|]. split; [lazy; reflexivity|].
  destruct (ran_inv _ F) as [st E].
  destruct (@best_step_is_first_evaluation_with_best_score
              _ _ _ _ _ _ _ _ _ _ _ _ _ _ _
              Z.ltb_irrefl Z_ltb_trans E)
    as [pre [e [post [H1 [H2 _]]]]].
  exists st, pre, e, post. auto.
Defined.

(* ------------------------------------------------------------------ *)
(** ** [config.json] *)
(* ------------------------------------------------------------------ *)

Lemma jsonable_idem (v : pyvalue) : jsonable (jsonable v) = jsonable v.
Proof. destruct v; reflexivity. Qed.

(** The record written to [config.json] has the attributes of the
    arguments in their order; every value in it can be written by
    [json.dump] (no path object is left); an integer or float attribute
    keeps its value, any other attribute becomes a string; and converting
    the record again changes nothing. *)
Lemma config_record_is_json_serializable :
  forall (vars_args : list (string * pyvalue)),
    map fst (config_json vars_args) = map fst vars_args
    /\ Forall (fun kv => json_serializable (snd kv) = true)
              (config_json vars_args)
    /\ (forall k v, In (k, v) vars_args ->
          In (k, match v with
                 | PInt _ | PFloat _ => v
                 | PStr s | PPath s => PStr s
                 end) (config_json vars_args))
    /\ config_json (config_json vars_args) = config_json vars_args.
Proof.
  intros vars_args. unfold config_json. repeat split.
  - rewrite map_map. reflexivity.
  - apply Forall_forall. intros kv Hkv. apply in_map_iff in Hkv.
    destruct Hkv as [[k v] [<- _]]. destruct v; reflexivity.
  - intros k v Hin. apply in_map_iff. exists (k, v).
    split; [|exact Hin]. destruct v; reflexivity.
  - rewrite map_map. apply map_ext. intros [k v]. cbn [fst snd].
    now rewrite jsonable_idem.
Qed.
